(** * Time-segment matching (SRM notebook): a shallow embedding

    The notebook [src/srm/SRM.ipynb] defines one function of interest,
    [time_segment_matching(data, win_size=10)].  This file embeds that
    function, statement by statement, over a small model of the NumPy
    operations it uses (allocation, basic slicing, broadcasting in-place
    updates, [argmax]) and proves properties of it.  The cells that
    split the recordings in two halves and run the function on them are
    embedded as well.

    Conventions.
    - A two-dimensional array is its list of rows together with its number
      of columns (so that an array with no rows still has a width).
    - Python exceptions are values of [exn]; a computation that may raise
      returns a [result].
    - The array scalars are kept abstract (class [Scalar]): the structural
      theorems hold for any arithmetic, IEEE double precision included.
      Double precision itself is the instance [float64_scalar], used
      where rounding decides.
    - [scipy.stats.zscore], [numpy.nan_to_num] and the coefficients
      that [brainiak.fcma.util.compute_correlation] computes are library
      code, not part of the notebook; they are parameters (class
      [Collaborators]).  What the correlation routine does before it
      computes (its dimension check, and the [IndexError] of its matrix
      product on an operand with an axis of length zero) is modelled.
    - An accuracy [count / nseg] is kept as the exact ratio; the array
      holds the [float64] nearest to it, and [np.mean] is computed on
      those [float64] values. *)

From Stdlib Require Import List ZArith QArith Qminmax Lia Bool Arith.
From Stdlib Require Import PrimFloat.
From Stdlib Require Uint63.
Import ListNotations.

Local Open Scope nat_scope.

(** ** Exceptions and the error monad *)

(** [IndexError], [ValueError] and [ZeroDivisionError] are the built-in
    exceptions the statements of the function can raise.  The other four
    are the error kinds named by the specification; the source never
    constructs them. *)
Inductive exn : Type :=
| IndexError
| ValueError
| ZeroDivisionError
| InvalidWindowError
| ShapeMismatchError
| EmptyInputError
| DegenerateInputError.

Inductive result (A : Type) : Type :=
| Ok (a : A)
| Raise (e : exn).

Arguments Ok {A} a.
Arguments Raise {A} e.

Definition bind {A B : Type} (m : result A) (k : A -> result B) : result B :=
  match m with
  | Ok a => k a
  | Raise e => Raise e
  end.

Notation "x <- m ;; k" := (bind m (fun x => k))
  (at level 61, m at next level, right associativity).

(** A [for] loop over [l] threading the loop-carried state [s]. *)
Fixpoint foldM {S X : Type} (body : S -> X -> result S) (l : list X) (s : S)
  : result S :=
  match l with
  | [] => Ok s
  | x :: t => s' <- body s x ;; foldM body t s'
  end.

(** The exceptions Python and NumPy themselves raise. *)
Definition builtin (e : exn) : bool :=
  match e with
  | IndexError | ValueError | ZeroDivisionError => true
  | _ => false
  end.

(** ** Lists *)

Fixpoint map2 {A B C : Type} (f : A -> B -> C) (l : list A) (l' : list B)
  : list C :=
  match l, l' with
  | a :: t, b :: t' => f a b :: map2 f t t'
  | _, _ => []
  end.

(** [upd i f l] applies [f] to the element at position [i], if any. *)
Fixpoint upd {A : Type} (i : nat) (f : A -> A) (l : list A) : list A :=
  match l, i with
  | [], _ => []
  | x :: t, O => f x :: t
  | x :: t, S k => x :: upd k f t
  end.

(** [range(n)] for a Python integer [n]. *)
Definition range (n : Z) : list nat := seq 0 (Z.to_nat n).

(** [l[i]] for a non-negative index. *)
Definition getitem {A : Type} (l : list A) (i : nat) : result A :=
  match nth_error l i with
  | Some x => Ok x
  | None => Raise IndexError
  end.

(** Normalisation of one bound of a basic slice against a length. *)
Definition clip (len i : Z) : Z :=
  if (i <? 0)%Z then Z.max 0 (i + len) else Z.min i len.

Definition slice_start (len : nat) (start : Z) : nat :=
  Z.to_nat (clip (Z.of_nat len) start).

Definition slice_len (len : nat) (start stop : Z) : nat :=
  Z.to_nat (clip (Z.of_nat len) stop - clip (Z.of_nat len) start).

(** [l[start:stop]]. *)
Definition py_slice {A : Type} (start stop : Z) (l : list A) : list A :=
  firstn (slice_len (length l) start stop)
         (skipn (slice_start (length l) start) l).

(** ** Two-dimensional arrays *)

Record ndarray (A : Type) : Type := mk_ndarray {
  ncols : nat;
  rows : list (list A)
}.

Arguments mk_ndarray {A} ncols rows.
Arguments ncols {A} n.
Arguments rows {A} n.

Definition shape0 {A : Type} (a : ndarray A) : nat := length (rows a).
Definition shape1 {A : Type} (a : ndarray A) : nat := ncols a.

(** Rectangular: every row has [ncols] entries. *)
Definition wf {A : Type} (a : ndarray A) : Prop :=
  Forall (fun r => length r = ncols a) (rows a).

Definition has_shape {A : Type} (r c : nat) (a : ndarray A) : Prop :=
  shape0 a = r /\ ncols a = c /\ wf a.

(** [a[:, start:stop]]. *)
Definition slice_cols {A : Type} (a : ndarray A) (start stop : Z) : ndarray A :=
  mk_ndarray (slice_len (ncols a) start stop)
             (map (py_slice start stop) (rows a)).

(** The columns of [a], i.e. the rows of [a.T]. *)
Definition columns {A : Type} (dflt : A) (a : ndarray A) : list (list A) :=
  map (fun j => map (fun r => nth j r dflt) (rows a)) (seq 0 (ncols a)).

(** Entry [a[i, j]], with a default outside the array. *)
Definition entry {A : Type} (dflt : A) (a : ndarray A) (i j : nat) : A :=
  nth j (nth i (rows a) []) dflt.

(** Broadcasting rule for one axis: an axis of the operand fits an axis of
    length [n] of the destination when it has that length or length 1. *)
Definition fits (k n : nat) : bool := (k =? n) || (k =? 1).

Definition stretch {A : Type} (n : nat) (l : list A) : list A :=
  if length l =? n then l
  else match l with
       | [x] => repeat x n
       | _ => l
       end.

(** The rows of [x] broadcast to shape [(r, c)]; NumPy raises [ValueError]
    when the operand cannot be broadcast. *)
Definition broadcast_to {A : Type} (x : ndarray A) (r c : nat)
  : result (list (list A)) :=
  if fits (shape0 x) r && fits (ncols x) c
  then Ok (stretch r (map (stretch c) (rows x)))
  else Raise ValueError.

(** [a[start:stop, :] op= rhs] on the view of rows [start:stop]: the
    operand is broadcast to the shape of the view and combined with it
    entry by entry; [op] is the addition for [+=] and the second projection
    for plain assignment. *)
Definition update_rows {A : Type} (op : A -> A -> A) (a : ndarray A)
    (start stop : Z) (rhs : ndarray A) : result (ndarray A) :=
  let lo := slice_start (shape0 a) start in
  let view := py_slice start stop (rows a) in
  r <- broadcast_to rhs (length view) (ncols a) ;;
  Ok (mk_ndarray (ncols a)
        (firstn lo (rows a) ++ map2 (map2 op) view r
           ++ skipn (lo + length view) (rows a))).

Definition assign {A : Type} (old new : A) : A := new.

(** ** Correlation values *)

(** Entries of the correlation matrix: single-precision values, of which
    only the order and the special values matter here. *)
Inductive fval : Type :=
| NaN
| NegInf
| Fin (q : Q)
| PosInf.

(** IEEE [<=]: false as soon as one side is NaN. *)
Definition fle (x y : fval) : bool :=
  match x, y with
  | NaN, _ | _, NaN => false
  | NegInf, _ => true
  | _, PosInf => true
  | Fin a, Fin b => Qle_bool a b
  | _, _ => false
  end.

Definition is_nan (x : fval) : bool :=
  match x with NaN => true | _ => false end.

(** The scan of [numpy.argmax] over one row: the running maximum [mp] at
    index [max_ind] is replaced by entry [i] when [not (entry <= mp)], and
    the scan stops at the first NaN. *)
Fixpoint argmax_scan (mp : fval) (max_ind i : nat) (l : list fval) : nat :=
  match l with
  | [] => max_ind
  | x :: t =>
      if is_nan mp then max_ind
      else if negb (fle x mp) then argmax_scan x i (S i) t
      else argmax_scan mp max_ind (S i) t
  end.

Definition argmax_row (row : list fval) : nat :=
  match row with
  | [] => 0
  | x :: t => argmax_scan x 0 1 t
  end.

(** [numpy.argmax(a, axis=1)]: a reduction along an axis of length zero
    raises [ValueError]. *)
Definition np_argmax_axis1 (a : ndarray fval) : result (list nat) :=
  if ncols a =? 0 then Raise ValueError
  else Ok (map argmax_row (rows a)).

(** [a[i, j] = v]. *)
Definition setitem2 {A : Type} (a : ndarray A) (i j : nat) (v : A)
  : result (ndarray A) :=
  if (i <? shape0 a) && (j <? ncols a)
  then Ok (mk_ndarray (ncols a) (upd i (upd j (fun _ => v)) (rows a)))
  else Raise IndexError.

(** [v[i] = x] on a one-dimensional array. *)
Definition setitem1 {A : Type} (v : list A) (i : nat) (x : A)
  : result (list A) :=
  if i <? length v then Ok (upd i (fun _ => x) v) else Raise IndexError.

(** ** Scalars and library collaborators *)

(** The arithmetic of the array entries ([numpy.float64] in the notebook). *)
Class Scalar (F : Type) : Type := {
  fzero : F;
  fadd : F -> F -> F;
  fsub : F -> F -> F
}.

(** Library functions the notebook calls:
    - [zscore] is [scipy.stats.zscore(., ddof=1)] on one column,
    - [nan_to_num] is [numpy.nan_to_num] on one entry,
    - [pearson x y] is the entry that [compute_correlation] returns for a
      row [x] of its first argument and a row [y] of its second. *)
Class Collaborators (F : Type) : Type := {
  zscore : list F -> list F;
  nan_to_num : F -> F;
  pearson : list F -> list F -> fval
}.

Section Model.

Context {F : Type} {SF : Scalar F} {CF : Collaborators F}.

(** [numpy.zeros((r, c))]: negative dimensions are not allowed. *)
Definition np_zeros (r c : Z) : result (ndarray F) :=
  if ((r <? 0) || (c <? 0))%Z then Raise ValueError
  else Ok (mk_ndarray (Z.to_nat c)
             (repeat (repeat fzero (Z.to_nat c)) (Z.to_nat r))).

(** [a - b] for two arrays allocated with the same shape. *)
Definition nd_sub (a b : ndarray F) : ndarray F :=
  mk_ndarray (ncols a) (map2 (map2 fsub) (rows a) (rows b)).

Definition nd_add (a b : ndarray F) : ndarray F :=
  mk_ndarray (ncols a) (map2 (map2 fadd) (rows a) (rows b)).

(** [np.nan_to_num(stats.zscore(a, axis=0, ddof=1)).T]: one standardised
    row per column of [a], each as long as [a] has rows. *)
Definition standardize_T (a : ndarray F) : ndarray F :=
  mk_ndarray (shape0 a)
    (map (fun c => map nan_to_num (zscore c)) (columns fzero a)).

(** The matrix of the coefficients of every row of [X] with every row of
    [Y]. *)
Definition correlate (X Y : list (list F)) : ndarray fval :=
  mk_ndarray (length Y) (map (fun x => map (pearson x) Y) X).

(** [compute_correlation(X, Y)]: the routine raises [ValueError] when its
    operands differ in their number of columns, and its matrix product
    takes the address of the first entry of both operands and of the
    result, which raises [IndexError] when one of them has an axis of
    length zero. *)
Definition compute_correlation (X Y : ndarray F) : result (ndarray fval) :=
  if negb (ncols X =? ncols Y) then Raise ValueError
  else if (shape0 X =? 0) || (shape0 Y =? 0) || (ncols X =? 0)
       then Raise IndexError
       else Ok (correlate (rows X) (rows Y)).

(** One pass of
<<
    for w in range(win_size):
        buf[w*ndim:(w+1)*ndim, :] op= data[m][:, w:(w+nseg)]
>> *)
Definition fill_segments (op : F -> F -> F) (data : list (ndarray F))
    (m : nat) (ndim : nat) (nseg win_size : Z) (buf : ndarray F)
  : result (ndarray F) :=
  foldM (fun buf w =>
           dm <- getitem data m ;;
           update_rows op buf
             (Z.of_nat w * Z.of_nat ndim) ((Z.of_nat w + 1) * Z.of_nat ndim)
             (slice_cols dm (Z.of_nat w) (Z.of_nat w + nseg)))
        (range win_size) buf.

(** The accumulation of [trn_data] over all subjects. *)
Definition accumulate (data : list (ndarray F)) (ndim : nat)
    (nseg win_size : Z) (trn_data : ndarray F) : result (ndarray F) :=
  foldM (fun trn m => fill_segments fadd data m ndim nseg win_size trn)
        (range (Z.of_nat (length data))) trn_data.

(** The test [abs(i-j) < win_size and i != j]. *)
Definition overlaps (win_size : Z) (i j : nat) : bool :=
  (Z.abs (Z.of_nat i - Z.of_nat j) <? win_size)%Z && negb (i =? j).

(** The double loop of the correlation classifier. *)
Definition mask_loop (corr_mtx : ndarray fval) (nseg win_size : Z)
  : result (ndarray fval) :=
  foldM (fun c i =>
           foldM (fun c j =>
                    if overlaps win_size i j then setitem2 c i j NegInf
                    else Ok c)
                 (range nseg) c)
        (range nseg) corr_mtx.

(** [sum(max_idx == range(nseg))]: the number of positions where the two
    sequences agree. *)
Definition count_hits (max_idx : list nat) (nseg : Z) : nat :=
  length (filter (fun p => fst p =? snd p) (combine max_idx (range nseg))).

(** [count / nseg]. *)
Definition py_div (count : nat) (nseg : Z) : result Q :=
  if (nseg =? 0)%Z then Raise ZeroDivisionError
  else Ok (Qmake (Z.of_nat count) (Z.to_pos nseg)).

(** The matrix standardised into [A]: [trn_data - tst_data]. *)
Definition corrected_template (trn_data tst_data : ndarray F) : ndarray F :=
  nd_sub trn_data tst_data.

(** The masked correlation matrix of one held-out subject. *)
Definition masked_correlation (trn_data tst_data : ndarray F)
    (nseg win_size : Z) : result (ndarray fval) :=
  let A_T := standardize_T (corrected_template trn_data tst_data) in
  let B_T := standardize_T tst_data in
  corr_mtx <- compute_correlation B_T A_T ;;
  mask_loop corr_mtx nseg win_size.

(** [max_idx = np.argmax(corr_mtx, axis=1)] and the accuracy computed
    from it. *)
Definition score (corr_mtx : ndarray fval) (nseg : Z) : result Q :=
  max_idx <- np_argmax_axis1 corr_mtx ;;
  py_div (count_hits max_idx nseg) nseg.

(** The body of the leave-one-out loop for subject [tst_subj]. *)
Definition analyze_subject (data : list (ndarray F)) (ndim : nat)
    (nseg win_size : Z) (trn_data : ndarray F) (accuracy : list Q)
    (tst_subj : nat) : result (list Q) :=
  tst0 <- np_zeros (Z.of_nat ndim * win_size) nseg ;;
  tst_data <- fill_segments assign data tst_subj ndim nseg win_size tst0 ;;
  corr_mtx <- masked_correlation trn_data tst_data nseg win_size ;;
  acc <- score corr_mtx nseg ;;
  setitem1 accuracy tst_subj acc.

Definition time_segment_matching (data : list (ndarray F)) (win_size : Z)
  : result (list Q) :=
  let nsubjs := length data in
  d0 <- getitem data 0 ;;
  let ndim := shape0 d0 in
  let nsample := shape1 d0 in
  let accuracy := repeat 0%Q nsubjs in
  let nseg := (Z.of_nat nsample - win_size)%Z in
  trn0 <- np_zeros (Z.of_nat ndim * win_size) nseg ;;
  trn_data <- accumulate data ndim nseg win_size trn0 ;;
  foldM (analyze_subject data ndim nseg win_size trn_data)
        (range (Z.of_nat nsubjs)) accuracy.

End Model.

(** ** The segment matrix and the group sum, as the specification words them *)

Section Specification.

Context {F : Type} {SF : Scalar F}.

(** Columns [[w, w+nseg)] of the time series [d]. *)
Definition seg_block (d : ndarray F) (nseg w : nat) : list (list F) :=
  map (fun r => firstn nseg (skipn w r)) (rows d).

(** SegmentMatrix: the blocks for the offsets [0 .. win-1], stacked. *)
Definition segment_matrix (win nseg : nat) (d : ndarray F) : ndarray F :=
  mk_ndarray nseg (concat (map (seg_block d nseg) (seq 0 win))).

Definition zeros (r c : nat) : ndarray F :=
  mk_ndarray c (repeat (repeat fzero c) r).

(** GroupSum: the entrywise sum of the segment matrices of the subjects
    [l], accumulated from the left starting from zeros. *)
Definition group_sum (D win nseg : nat) (l : list (ndarray F)) : ndarray F :=
  fold_left nd_add (map (segment_matrix win nseg) l) (zeros (D * win) nseg).

(** The list [l] without its element at position [i]. *)
Definition remove_nth {A : Type} (i : nat) (l : list A) : list A :=
  firstn i l ++ skipn (S i) l.

(** [a[:, :T]] as a pure function. *)
Definition truncate_cols (T : nat) (d : ndarray F) : ndarray F :=
  mk_ndarray (Nat.min T (ncols d)) (map (firstn T) (rows d)).

(** The subject's window condition: rectangular, [D] features, and at
    least [W + ns] time points. *)
Definition admits (D W ns : nat) (d : ndarray F) : Prop :=
  wf d /\ shape0 d = D /\ W + ns <= ncols d.

End Specification.

(** The order in which [argmax] ranks values: IEEE order on numbers, with
    NaN above everything. *)
Definition rank_le (x y : fval) : bool :=
  match y with
  | NaN => true
  | _ => fle x y
  end.

(** The mask as one predicate on index pairs. *)
Definition masked (win_size : Z) (corr : ndarray fval) (p q : nat) : fval :=
  if overlaps win_size p q then NegInf else entry NaN corr p q.

(** [k] is the position of the first greatest entry of [row]. *)
Definition first_max (row : list fval) (k : nat) : Prop :=
  k < length row
  /\ (forall q, q < length row ->
        rank_le (nth q row NaN) (nth k row NaN) = true)
  /\ (forall q, q < k -> rank_le (nth k row NaN) (nth q row NaN) = false).

(** The masked correlation matrix, entry by entry. *)
Definition mask_pure (win_size : Z) (corr : ndarray fval) : ndarray fval :=
  mk_ndarray (ncols corr)
    (map (fun p => map (masked win_size corr p) (seq 0 (ncols corr)))
         (seq 0 (shape0 corr))).

(** The number of rows [p < n] whose first greatest entry is at [p]. *)
Definition hits (n : nat) (corr : ndarray fval) : nat :=
  length (filter (fun p => argmax_row (nth p (rows corr) []) =? p) (seq 0 n)).

Section Pipeline.

Context {F : Type} {SF : Scalar F} {CF : Collaborators F}.

(** CorrelationMatrix: held-out segments against the corrected template. *)
Definition correlation_matrix (trn tst : ndarray F) : ndarray fval :=
  correlate (rows (standardize_T tst))
            (rows (standardize_T (corrected_template trn tst))).

(** The accuracy of the subject with time series [d], given the group sum
    [trn]: the fraction of rows of the masked correlation matrix whose
    first greatest entry is on the diagonal. *)
Definition subject_accuracy (win_size : Z) (W ns : nat)
    (trn d : ndarray F) : Q :=
  Qmake (Z.of_nat
           (hits ns (mask_pure win_size
                       (correlation_matrix trn (segment_matrix W ns d)))))
        (Pos.of_nat ns).

End Pipeline.

(** The largest element of a non-empty list of rationals. *)
Definition Qlist_max (l : list Q) : Q :=
  match l with
  | [] => 0%Q
  | x :: t => fold_left Qmax t x
  end.

(** ** The mean of the accuracies, in double precision *)

(** The [float64] that the accuracy array holds for the ratio
    [count / nseg]: the quotient of the two integers, rounded once. *)
Definition float64_of_ratio (q : Q) : float :=
  PrimFloat.div (of_uint63 (Uint63.of_Z (Qnum q)))
                (of_uint63 (Uint63.of_Z (Zpos (Qden q)))).

(** The eight running sums of NumPy's block summation, updated with the
    next eight values. *)
Fixpoint add_chunks (r : list float) (l : list float) (chunks : nat)
  : list float :=
  match chunks with
  | O => r
  | S k => add_chunks (map2 PrimFloat.add r (firstn 8 l)) (skipn 8 l) k
  end.

(** NumPy's sum of a block of 8 to 128 values: eight running sums over the
    multiples of eight, combined pairwise, then the remaining values added
    one by one. *)
Definition block_sum (l : list float) : float :=
  let n := length l in
  let r := add_chunks (firstn 8 l) (skipn 8 l) (n / 8 - 1) in
  let r_ (i : nat) := nth i r 0%float in
  let res :=
    PrimFloat.add
      (PrimFloat.add (PrimFloat.add (r_ 0) (r_ 1)) (PrimFloat.add (r_ 2) (r_ 3)))
      (PrimFloat.add (PrimFloat.add (r_ 4) (r_ 5)) (PrimFloat.add (r_ 6) (r_ 7))) in
  fold_left PrimFloat.add (skipn (n - n mod 8) l) res.

(** NumPy's pairwise summation: fewer than 8 values are added from left to
    right, up to 128 values are summed as one block, and longer inputs are
    split in two parts whose sums are added, the first part half the
    input rounded down to a multiple of eight.  [depth] bounds the number of
    splits; the length of the input is always enough. *)
Fixpoint pairwise_sum (depth : nat) (l : list float) : float :=
  let n := length l in
  if n <? 8 then fold_left PrimFloat.add l 0%float
  else if n <=? 128 then block_sum l
  else match depth with
       | O => 0%float
       | S k =>
           let n2 := n / 2 - (n / 2) mod 8 in
           PrimFloat.add (pairwise_sum k (firstn n2 l))
                         (pairwise_sum k (skipn n2 l))
       end.

(** [np.mean(accuracy)], the average printed at the end of a run: the sum
    of the stored values, added to the initial value 0, divided by their
    number. *)
Definition np_mean (accuracy : list Q) : float :=
  let a := map float64_of_ratio accuracy in
  PrimFloat.div
    (PrimFloat.add 0%float (pairwise_sum (length a) a))
    (of_uint63 (Uint63.of_Z (Z.of_nat (length a)))).

(** ** An exact-arithmetic instance, for running the model *)

#[export] Instance Z_scalar : Scalar Z := {|
  fzero := 0%Z;
  fadd := Z.add;
  fsub := Z.sub
|}.

Definition dot (x y : list Z) : Z :=
  fold_right Z.add 0%Z (map2 Z.mul x y).

(** Stand-ins for the library functions: no rescaling, and the inner
    product as similarity. *)
#[export] Instance Z_collaborators : Collaborators Z := {|
  zscore := fun c => c;
  nan_to_num := fun x => x;
  pearson := fun x y => Fin (inject_Z (dot x y))
|}.

Definition row_array (T : nat) (r : list Z) : ndarray Z := mk_ndarray T [r].

(** Double-precision arithmetic, the arithmetic of the notebook's arrays. *)
#[export] Instance float64_scalar : Scalar float := {|
  fzero := 0%float;
  fadd := PrimFloat.add;
  fsub := PrimFloat.sub
|}.

(** Two subjects with one feature and three time points, one of them with
    a large value. *)
Definition float_subjects : list (ndarray float) :=
  [mk_ndarray 3 [[1; 2; 3]%float]; mk_ndarray 3 [[1e16; 0; 5]%float]].

(** Three subjects with one feature and eleven time points, all zero. *)
Definition flat_subjects : list (ndarray Z) :=
  [row_array 11 (repeat 0%Z 11); row_array 11 (repeat 0%Z 11);
   row_array 11 (repeat 0%Z 11)].

(** Three subjects, two features, four time points. *)
Definition three_subjects : list (ndarray Z) :=
  [mk_ndarray 4 [[1; 2; 0; 1]; [0; 1; 3; 1]]%Z;
   mk_ndarray 4 [[2; 0; 1; 1]; [1; 1; 0; 2]]%Z;
   mk_ndarray 4 [[0; 3; 1; 2]; [2; 0; 1; 0]]%Z].

(** A three by three correlation matrix with a tie in its last row. *)
Definition example_corr : ndarray fval :=
  mk_ndarray 3 [[Fin 1; Fin 0; Fin (1 # 2)];
                [Fin (1 # 3); Fin (1 # 4); Fin 1];
                [Fin (1 # 2); NegInf; Fin (1 # 2)]].

(** Subjects of different lengths: three and five time points. *)
Definition ragged_subjects : list (ndarray Z) :=
  [row_array 3 [1; 2; 4]%Z; row_array 5 [2; 1; 3; 0; 7]%Z].

(** ** The notebook cells around the function *)

(** [a[:, start:stop]] where either bound may be left out: a missing start
    is 0 and a missing stop is the length of the axis. *)
Definition slice_cols_opt {A : Type} (a : ndarray A) (start stop : option Z)
  : ndarray A :=
  slice_cols a
    (match start with Some s => s | None => 0%Z end)
    (match stop with Some e => e | None => Z.of_nat (ncols a) end).

Section Notebook.

Context {F : Type} {SF : Scalar F} {CF : Collaborators F}.

(** [np.nan_to_num(stats.zscore(a, axis=1, ddof=1))]: every row is
    standardised on its own. *)
Definition standardize_rows (a : ndarray F) : ndarray F :=
  mk_ndarray (ncols a) (map (fun r => map nan_to_num (zscore r)) (rows a)).

(** The body of the loop that splits the time points in two halves:
<<
    train_data.append(np.nan_to_num(stats.zscore(
        data[subject][:, :n_trs//2], axis=1, ddof=1)))
    test_data.append(np.nan_to_num(stats.zscore(
        data[subject][:, -(n_trs//2):], axis=1, ddof=1)))
>>
    The state is the pair [(train_data, test_data)]. *)
Definition split_step (data : list (ndarray F)) (n_trs : Z)
    (st : list (ndarray F) * list (ndarray F)) (subject : nat)
  : result (list (ndarray F) * list (ndarray F)) :=
  d1 <- getitem data subject ;;
  let train_data :=
    fst st ++ [standardize_rows (slice_cols_opt d1 None (Some (n_trs / 2)%Z))] in
  d2 <- getitem data subject ;;
  let test_data :=
    snd st ++ [standardize_rows (slice_cols_opt d2 (Some (- (n_trs / 2))%Z) None)] in
  Ok (train_data, test_data).

(** The whole cell: both lists start empty and the loop runs over
    [range(n_subjects)]. *)
Definition split_halves (data : list (ndarray F)) (n_subjects n_trs : Z)
  : result (list (ndarray F) * list (ndarray F)) :=
  foldM (split_step data n_trs) (range n_subjects) ([], []).

(** The cell that benchmarks the raw data:
<<
    accuracy_raw_train = time_segment_matching(train_data, win_size=10)
    accuracy_raw_test = time_segment_matching(test_data, win_size=10)
    boxplot_data = [accuracy_raw_train, accuracy_raw_test]
>> *)
Definition raw_benchmark (train_data test_data : list (ndarray F))
  : result (list (list Q)) :=
  accuracy_raw_train <- time_segment_matching train_data 10 ;;
  accuracy_raw_test <- time_segment_matching test_data 10 ;;
  Ok [accuracy_raw_train; accuracy_raw_test].

(** The training half and the test half of one subject, as the loop
    computes them. *)
Definition train_half (n_trs : Z) (d : ndarray F) : ndarray F :=
  standardize_rows (slice_cols_opt d None (Some (n_trs / 2)%Z)).

Definition test_half (n_trs : Z) (d : ndarray F) : ndarray F :=
  standardize_rows (slice_cols_opt d (Some (- (n_trs / 2))%Z) None).

End Notebook.

(** The last [k] columns of [d]. *)
Definition last_cols {A : Type} (k : nat) (d : ndarray A) : ndarray A :=
  mk_ndarray (Nat.min k (ncols d)) (map (skipn (ncols d - k)) (rows d)).

(** The rows of [d] repeated to [D] rows, as broadcasting does with an
    array that has a single row. *)
Definition broadcast_rows {A : Type} (D : nat) (d : ndarray A) : ndarray A :=
  mk_ndarray (ncols d) (stretch D (rows d)).

(** A proportion. *)
Definition in_unit (a : Q) : Prop := (0 <= a <= 1)%Q.

(** Two subjects with one feature and twenty-two time points. *)
Definition long_subjects : list (ndarray Z) :=
  [mk_ndarray 22 [map Z.of_nat (seq 0 22)];
   mk_ndarray 22 [map (fun n => Z.of_nat (n * n mod 7)) (seq 0 22)]].

(** A subject with two features followed by one with a single row. *)
Definition mixed_subjects : list (ndarray Z) :=
  [mk_ndarray 4 [[1; 2; 0; 1]; [0; 1; 3; 1]]%Z; row_array 4 [2; 0; 1; 1]%Z].

(** * Properties *)

(** ** The error monad *)

Lemma bind_Ok_inv {A B : Type} (m : result A) (k : A -> result B) (b : B) :
  bind m k = Ok b -> exists a, m = Ok a /\ k a = Ok b.
Proof.
  destruct m as [a|e]; simpl; intros H; [eauto | discriminate].
Qed.

Lemma bind_Raise_inv {A B : Type} (m : result A) (k : A -> result B) (e : exn) :
  bind m k = Raise e -> m = Raise e \/ exists a, m = Ok a /\ k a = Raise e.
Proof.
  destruct m as [a|e']; simpl; intros H; [right; eauto | left; congruence].
Qed.

Lemma foldM_app {S X : Type} (body : S -> X -> result S) (l1 l2 : list X) (s : S) :
  foldM body (l1 ++ l2) s = bind (foldM body l1 s) (foldM body l2).
Proof.
  revert s; induction l1 as [|x l1 IH]; intros s; simpl; [reflexivity|].
  destruct (body s x); simpl; auto.
Qed.

Lemma foldM_ext {S X : Type} (f g : S -> X -> result S) (l : list X) (s : S) :
  (forall s x, In x l -> f s x = g s x) -> foldM f l s = foldM g l s.
Proof.
  revert s; induction l as [|x l IH]; intros s H; simpl; [reflexivity|].
  rewrite H by (left; reflexivity).
  destruct (g s x); simpl; [apply IH; intros; apply H; right; assumption | reflexivity].
Qed.

(** A loop whose body can only raise errors from a set [P], and preserves
    an invariant, can only raise errors from [P]. *)
Lemma foldM_raises {S X : Type} (P : exn -> Prop) (Inv : S -> Prop)
    (body : S -> X -> result S) (l : list X) :
  (forall s x, Inv s -> In x l ->
     match body s x with Ok s' => Inv s' | Raise e => P e end) ->
  forall s, Inv s ->
    match foldM body l s with Ok s' => Inv s' | Raise e => P e end.
Proof.
  induction l as [|x l IH]; intros Hb s Hs; simpl; [assumption|].
  pose proof (Hb s x Hs (or_introl eq_refl)) as H.
  destruct (body s x) as [s'|e]; simpl; [|assumption].
  apply IH; [|assumption]. intros; apply Hb; [assumption | right; assumption].
Qed.

(** ** Lists *)

Lemma map2_length {A B C : Type} (f : A -> B -> C) (l : list A) (l' : list B) :
  length (map2 f l l') = Nat.min (length l) (length l').
Proof.
  revert l'; induction l as [|a l IH]; intros [|b l']; simpl; auto.
Qed.

Lemma map2_nil_r {A B C : Type} (f : A -> B -> C) (l : list A) :
  map2 f l [] = [].
Proof. destruct l; reflexivity. Qed.

Lemma map2_app {A B C : Type} (f : A -> B -> C) (l1 l2 : list A)
    (k1 k2 : list B) :
  length l1 = length k1 ->
  map2 f (l1 ++ l2) (k1 ++ k2) = map2 f l1 k1 ++ map2 f l2 k2.
Proof.
  revert k1; induction l1 as [|a l1 IH]; intros [|b k1] H; simpl in *;
    try discriminate; [reflexivity|].
  f_equal. apply IH. lia.
Qed.

Lemma map2_assign {A : Type} (l k : list A) :
  length l = length k -> map2 assign l k = k.
Proof.
  revert k; induction l as [|a l IH]; intros [|b k] H; simpl in *;
    try discriminate; [reflexivity|].
  unfold assign at 1. f_equal. apply IH. lia.
Qed.

Lemma map2_map2_assign {A : Type} (n : nat) (l k : list (list A)) :
  length l = length k ->
  Forall (fun r => length r = n) l -> Forall (fun r => length r = n) k ->
  map2 (map2 assign) l k = k.
Proof.
  revert k; induction l as [|a l IH]; intros [|b k] H Hl Hk; simpl in *;
    try discriminate; [reflexivity|].
  inversion Hl; inversion Hk; subst.
  f_equal; [apply map2_assign; congruence | apply IH; auto].
Qed.

Lemma upd_length {A : Type} (i : nat) (f : A -> A) (l : list A) :
  length (upd i f l) = length l.
Proof.
  revert i; induction l as [|x l IH]; intros [|i]; simpl; auto.
Qed.

Lemma nth_upd {A : Type} (i k : nat) (f : A -> A) (l : list A) (d : A) :
  i < length l ->
  nth k (upd i f l) d = if k =? i then f (nth i l d) else nth k l d.
Proof.
  revert i k; induction l as [|x l IH]; intros [|i] [|k] H; simpl in *;
    try lia; auto.
  apply IH; lia.
Qed.

Lemma Forall_repeat {A : Type} (P : A -> Prop) (x : A) (n : nat) :
  P x -> Forall P (repeat x n).
Proof. intros H; induction n; simpl; constructor; auto. Qed.

(** ** Slices *)

Lemma clip_nonneg (len i : Z) : (0 <= i)%Z -> clip len i = Z.min i len.
Proof.
  intros H; unfold clip. destruct (Z.ltb_spec i 0); [lia | reflexivity].
Qed.

Lemma slice_start_nat (len a : nat) :
  slice_start len (Z.of_nat a) = Nat.min a len.
Proof. unfold slice_start. rewrite clip_nonneg by lia. lia. Qed.

Lemma slice_len_nat (len a b : nat) :
  slice_len len (Z.of_nat a) (Z.of_nat b) = Nat.min b len - Nat.min a len.
Proof. unfold slice_len. rewrite !clip_nonneg by lia. lia. Qed.

(** A slice with non-negative bounds is "drop [a], then keep [b - a]". *)
Lemma py_slice_nat {A : Type} (a b : nat) (l : list A) :
  py_slice (Z.of_nat a) (Z.of_nat b) l = firstn (b - a) (skipn a l).
Proof.
  unfold py_slice. rewrite slice_start_nat, slice_len_nat.
  destruct (Nat.le_gt_cases a (length l)) as [Ha|Ha].
  - rewrite (Nat.min_l a) by assumption.
    destruct (Nat.le_gt_cases b (length l)) as [Hb|Hb].
    + rewrite (Nat.min_l b) by assumption. reflexivity.
    + rewrite (Nat.min_r b) by lia.
      rewrite !firstn_all2; auto; rewrite length_skipn; lia.
  - rewrite (Nat.min_r a) by lia.
    rewrite (skipn_all2 l (n := a)) by lia.
    rewrite skipn_all. rewrite !firstn_nil. reflexivity.
Qed.

(** ** Broadcasting and updates of a block of rows *)

Lemma stretch_same {A : Type} (n : nat) (l : list A) :
  length l = n -> stretch n l = l.
Proof. intros H; unfold stretch. rewrite H, Nat.eqb_refl. reflexivity. Qed.

Lemma broadcast_exact {A : Type} (r c : nat) (x : ndarray A) :
  has_shape r c x -> broadcast_to x r c = Ok (rows x).
Proof.
  intros (Hr & Hc & Hwf). unfold broadcast_to, fits.
  rewrite Hr, Hc, !Nat.eqb_refl. simpl. f_equal.
  assert (Hm : map (stretch c) (rows x) = rows x).
  { unfold wf in Hwf. rewrite Hc in Hwf.
    induction Hwf as [|row l Hrow _ IH]; simpl; [reflexivity|].
    rewrite stretch_same by assumption. f_equal. exact IH. }
  rewrite Hm. apply stretch_same. exact Hr.
Qed.

Lemma broadcast_raises {A : Type} (x : ndarray A) (r c : nat) (e : exn) :
  broadcast_to x r c = Raise e -> e = ValueError.
Proof.
  unfold broadcast_to. destruct (fits _ _ && fits _ _); congruence.
Qed.

Lemma update_rows_ncols {A : Type} (op : A -> A -> A) (a b : ndarray A)
    (start stop : Z) (rhs : ndarray A) :
  update_rows op a start stop rhs = Ok b -> ncols b = ncols a.
Proof.
  unfold update_rows. intros H. apply bind_Ok_inv in H as (r & _ & H).
  inversion H; reflexivity.
Qed.

Lemma update_rows_raises {A : Type} (op : A -> A -> A) (a : ndarray A)
    (start stop : Z) (rhs : ndarray A) (e : exn) :
  update_rows op a start stop rhs = Raise e -> e = ValueError.
Proof.
  unfold update_rows. intros H.
  apply bind_Raise_inv in H as [H | (r & _ & H)]; [|discriminate].
  eapply broadcast_raises; eassumption.
Qed.

(** Updating block [s] of [D] rows touches that block only. *)
Lemma update_rows_block {A : Type} (op : A -> A -> A) (a : ndarray A)
    (D s : nat) (pre blk post : list (list A)) (rhs : ndarray A) :
  rows a = pre ++ blk ++ post ->
  length pre = s * D -> length blk = D ->
  has_shape D (ncols a) rhs ->
  update_rows op a (Z.of_nat s * Z.of_nat D) ((Z.of_nat s + 1) * Z.of_nat D) rhs
  = Ok (mk_ndarray (ncols a) (pre ++ map2 (map2 op) blk (rows rhs) ++ post)).
Proof.
  intros Hrows Hpre Hblk Hrhs. unfold update_rows, shape0.
  replace (Z.of_nat s * Z.of_nat D)%Z with (Z.of_nat (s * D)) by lia.
  replace ((Z.of_nat s + 1) * Z.of_nat D)%Z with (Z.of_nat (s * D + D)) by lia.
  rewrite py_slice_nat, slice_start_nat.
  assert (Hlen : length (rows a) = s * D + D + length post).
  { rewrite Hrows, !length_app. lia. }
  rewrite (Nat.min_l (s * D)) by lia.
  assert (Hview : firstn (s * D + D - s * D) (skipn (s * D) (rows a)) = blk).
  { replace (s * D + D - s * D) with D by lia.
    rewrite Hrows, <- Hpre, skipn_app, skipn_all, Nat.sub_diag. simpl.
    rewrite <- Hblk, firstn_app, firstn_all, Nat.sub_diag. simpl.
    apply app_nil_r. }
  assert (Hfst : firstn (s * D) (rows a) = pre).
  { rewrite Hrows, <- Hpre, firstn_app, firstn_all, Nat.sub_diag. simpl.
    apply app_nil_r. }
  assert (Hsnd : skipn (s * D + D) (rows a) = post).
  { rewrite Hrows, app_assoc.
    replace (s * D + D) with (length (pre ++ blk)) by (rewrite length_app; lia).
    rewrite skipn_app, skipn_all, Nat.sub_diag. reflexivity. }
  rewrite Hview, Hblk, Hfst, Hsnd.
  rewrite (broadcast_exact D (ncols a) rhs Hrhs). reflexivity.
Qed.

Section Segments.

Context {F : Type} {SF : Scalar F}.

Lemma seg_block_length (d : ndarray F) (ns w : nat) :
  length (seg_block d ns w) = shape0 d.
Proof. unfold seg_block. apply length_map. Qed.

Lemma seg_block_rows (d : ndarray F) (ns w : nat) :
  wf d -> w + ns <= ncols d ->
  Forall (fun r => length r = ns) (seg_block d ns w).
Proof.
  intros Hwf Hw. unfold seg_block. apply Forall_map.
  eapply Forall_impl; [|exact Hwf]. simpl. intros r Hr.
  rewrite length_firstn, length_skipn. lia.
Qed.

(** The operand [d[:, w:w+ns]] of one block update. *)
Lemma slice_cols_block (d : ndarray F) (ns w : nat) :
  wf d -> w + ns <= ncols d ->
  has_shape (shape0 d) ns (slice_cols d (Z.of_nat w) (Z.of_nat w + Z.of_nat ns))
  /\ rows (slice_cols d (Z.of_nat w) (Z.of_nat w + Z.of_nat ns)) = seg_block d ns w.
Proof.
  intros Hwf Hw.
  replace (Z.of_nat w + Z.of_nat ns)%Z with (Z.of_nat (w + ns)) by lia.
  assert (Hrows : rows (slice_cols d (Z.of_nat w) (Z.of_nat (w + ns)))
                  = seg_block d ns w).
  { unfold slice_cols, seg_block. simpl. apply map_ext. intros r.
    rewrite py_slice_nat. f_equal. lia. }
  split; [|exact Hrows].
  unfold has_shape, shape0, wf. rewrite Hrows. repeat split.
  - apply seg_block_length.
  - unfold slice_cols; simpl. rewrite slice_len_nat. lia.
  - replace (ncols (slice_cols d (Z.of_nat w) (Z.of_nat (w + ns)))) with ns
      by (unfold slice_cols; simpl; rewrite slice_len_nat; lia).
    apply seg_block_rows; assumption.
Qed.

Lemma segment_matrix_length (W ns : nat) (d : ndarray F) :
  shape0 (segment_matrix W ns d) = shape0 d * W.
Proof.
  unfold segment_matrix, shape0. simpl.
  generalize 0. induction W as [|W IH]; intros s; simpl; [lia|].
  rewrite length_app, seg_block_length, IH. unfold shape0. lia.
Qed.

Lemma segment_matrix_wf (W ns : nat) (d : ndarray F) :
  wf d -> W + ns <= ncols d -> wf (segment_matrix W ns d).
Proof.
  intros Hwf HW. unfold wf, segment_matrix. simpl.
  apply Forall_concat. apply Forall_map. apply Forall_forall.
  intros w Hw. apply in_seq in Hw. apply seg_block_rows; [assumption | lia].
Qed.

(** The loop over the window offsets [s .. s+n-1], run on a buffer whose
    first [s] blocks are [pre]: each remaining block is combined with the
    corresponding columns of the time series. *)
Lemma fill_loop (op : F -> F -> F) (d : ndarray F) (D ns : nat) :
  wf d -> shape0 d = D ->
  forall n s pre rest,
    s + n + ns <= ncols d ->
    length pre = s * D -> length rest = n * D ->
    foldM (fun buf w =>
             update_rows op buf
               (Z.of_nat w * Z.of_nat D) ((Z.of_nat w + 1) * Z.of_nat D)
               (slice_cols d (Z.of_nat w) (Z.of_nat w + Z.of_nat ns)))
          (seq s n) (mk_ndarray ns (pre ++ rest))
    = Ok (mk_ndarray ns
            (pre ++ map2 (map2 op) rest
                      (concat (map (seg_block d ns) (seq s n))))).
Proof.
  intros Hwf HD. induction n as [|n IH]; intros s pre rest Hle Hpre Hrest.
  - destruct rest; [|discriminate]. reflexivity.
  - cbn [seq foldM].
    destruct (slice_cols_block d ns s Hwf ltac:(lia)) as [Hshape Hrows].
    rewrite HD in Hshape.
    assert (Hsplit : rest = firstn D rest ++ skipn D rest)
      by (symmetry; apply firstn_skipn).
    rewrite (update_rows_block op _ D s pre (firstn D rest) (skipn D rest));
      [ | simpl; congruence | assumption | rewrite length_firstn; lia | exact Hshape ].
    cbn [bind ncols]. rewrite Hrows, app_assoc.
    rewrite IH.
    + rewrite <- app_assoc. cbn [map concat]. rewrite Hsplit at 3.
      rewrite (map2_app (map2 op) (firstn D rest) (skipn D rest));
        [reflexivity|].
      rewrite length_firstn, seg_block_length. lia.
    + lia.
    + rewrite length_app, map2_length, length_firstn, seg_block_length.
      lia.
    + rewrite length_skipn. lia.
Qed.

(** The whole pass over the window offsets, for a subject with at least
    [W + ns] time points. *)
Lemma fill_segments_ok (op : F -> F -> F) (data : list (ndarray F)) (m : nat)
    (d : ndarray F) (D W ns : nat) (buf : ndarray F) :
  getitem data m = Ok d -> wf d -> shape0 d = D ->
  W + ns <= ncols d ->
  ncols buf = ns -> shape0 buf = W * D ->
  fill_segments op data m D (Z.of_nat ns) (Z.of_nat W) buf
  = Ok (mk_ndarray ns (map2 (map2 op) (rows buf) (rows (segment_matrix W ns d)))).
Proof.
  intros Hget Hwf HD HW Hc Hr. unfold fill_segments, range.
  rewrite Nat2Z.id, Hget. cbn [bind].
  destruct buf as [c rs]. simpl in Hc, Hr. subst c.
  apply (fill_loop op d D ns Hwf HD W 0 [] rs); simpl; auto.
Qed.

End Segments.

(** ** Writing single entries, and the exclusion mask *)

Lemma Forall_upd {A : Type} (P : A -> Prop) (f : A -> A) (i : nat) (l : list A) :
  (forall x, P x -> P (f x)) -> Forall P l -> Forall P (upd i f l).
Proof.
  intros Hf H; revert i; induction H as [|x l Hx Hl IH]; intros [|i]; simpl;
    constructor; auto.
Qed.

Lemma setitem2_spec {A : Type} (dflt : A) (r c : nat) (a : ndarray A)
    (i j : nat) (v : A) :
  has_shape r c a -> i < r -> j < c ->
  exists a', setitem2 a i j v = Ok a' /\ has_shape r c a' /\
    forall p q, entry dflt a' p q
                = if (p =? i) && (q =? j) then v else entry dflt a p q.
Proof.
  intros (Hr & Hc & Hwf) Hi Hj. unfold setitem2.
  assert (Hb : (i <? shape0 a) && (j <? ncols a) = true).
  { apply andb_true_intro; split; apply Nat.ltb_lt; lia. }
  rewrite Hb. eexists; split; [reflexivity|]. split.
  - unfold has_shape, shape0, wf in *. simpl. rewrite upd_length.
    repeat split; auto. apply Forall_upd; [|assumption].
    intros row Hrow. rewrite upd_length. exact Hrow.
  - intros p q. unfold entry. simpl. unfold shape0 in Hr.
    rewrite (nth_upd i p) by lia.
    destruct (Nat.eqb_spec p i) as [->|Hp]; simpl; [|reflexivity].
    assert (Hrow : length (nth i (rows a) []) = c).
    { unfold wf in Hwf. rewrite Forall_forall in Hwf. rewrite <- Hc.
      apply Hwf. apply nth_In. lia. }
    rewrite (nth_upd j q) by lia.
    destruct (q =? j); reflexivity.
Qed.

Lemma existsb_eqb_seq (p n : nat) :
  existsb (Nat.eqb p) (seq 0 n) = (p <? n).
Proof.
  destruct (Nat.ltb_spec p n) as [H|H].
  - apply existsb_exists. exists p. split; [apply in_seq; lia | apply Nat.eqb_refl].
  - destruct (existsb (Nat.eqb p) (seq 0 n)) eqn:E; [|reflexivity].
    apply existsb_exists in E as (x & Hx & Hpx).
    apply in_seq in Hx. apply Nat.eqb_eq in Hpx. lia.
Qed.

Section Mask.

Variable win_size : Z.
Variables r c : nat.

(** The inner loop, over the columns [js] of row [i]. *)
Lemma mask_row (i : nat) (js : list nat) :
  i < r -> Forall (fun j => j < c) js ->
  forall m, has_shape r c m ->
  exists m',
    foldM (fun c j => if overlaps win_size i j then setitem2 c i j NegInf
                      else Ok c) js m = Ok m'
    /\ has_shape r c m'
    /\ forall p q, entry NaN m' p q
         = if (p =? i) && existsb (Nat.eqb q) js && overlaps win_size p q
           then NegInf else entry NaN m p q.
Proof.
  intros Hi Hjs. induction Hjs as [|j js Hj _ IH]; intros m Hm.
  - exists m. repeat split; try apply Hm. intros p q.
    rewrite andb_false_r. reflexivity.
  - cbn [foldM]. destruct (overlaps win_size i j) eqn:Eo.
    + destruct (setitem2_spec NaN r c m i j NegInf Hm Hi Hj)
        as (m1 & E1 & Hm1 & Hent1).
      rewrite E1. cbn [bind].
      destruct (IH m1 Hm1) as (m' & E' & Hm' & Hent').
      exists m'. repeat split; try apply Hm'; [exact E'|].
      intros p q. rewrite Hent', Hent1. cbn [existsb].
      destruct (Nat.eqb_spec p i) as [->|Hp]; cbn [andb]; [|reflexivity].
      destruct (Nat.eqb_spec q j) as [->|Hq]; cbn [andb orb].
      * rewrite Eo. destruct (existsb _ js); reflexivity.
      * reflexivity.
    + cbn [bind]. destruct (IH m Hm) as (m' & E' & Hm' & Hent').
      exists m'. repeat split; try apply Hm'; [exact E'|].
      intros p q. rewrite Hent'. cbn [existsb].
      destruct (Nat.eqb_spec p i) as [->|Hp]; cbn [andb]; [|reflexivity].
      destruct (Nat.eqb_spec q j) as [->|Hq]; cbn [andb orb]; [|reflexivity].
      rewrite Eo. destruct (existsb _ js); reflexivity.
Qed.

(** The outer loop, over the rows [ps]. *)
Lemma mask_rows (ps js : list nat) :
  Forall (fun i => i < r) ps -> Forall (fun j => j < c) js ->
  forall m, has_shape r c m ->
  exists m',
    foldM (fun c i =>
             foldM (fun c j => if overlaps win_size i j
                               then setitem2 c i j NegInf else Ok c) js c)
          ps m = Ok m'
    /\ has_shape r c m'
    /\ forall p q, entry NaN m' p q
         = if existsb (Nat.eqb p) ps && existsb (Nat.eqb q) js
              && overlaps win_size p q
           then NegInf else entry NaN m p q.
Proof.
  intros Hps Hjs. induction Hps as [|i ps Hi _ IH]; intros m Hm.
  - exists m. repeat split; try apply Hm.
  - cbn [foldM].
    destruct (mask_row i js Hi Hjs m Hm) as (m1 & E1 & Hm1 & Hent1).
    rewrite E1. cbn [bind].
    destruct (IH m1 Hm1) as (m' & E' & Hm' & Hent').
    exists m'. repeat split; try apply Hm'; [exact E'|].
    intros p q. rewrite Hent', Hent1. cbn [existsb].
    destruct (Nat.eqb_spec p i) as [->|Hp]; cbn [andb orb]; [|reflexivity].
    destruct (existsb (Nat.eqb i) ps), (existsb (Nat.eqb q) js),
      (overlaps win_size i q); reflexivity.
Qed.

End Mask.

(** The double loop on an [n] by [n] matrix writes [-inf] exactly at the
    positions selected by [overlaps]. *)
Lemma mask_loop_spec (n : nat) (win_size : Z) (corr : ndarray fval) :
  has_shape n n corr ->
  exists m', mask_loop corr (Z.of_nat n) win_size = Ok m'
    /\ has_shape n n m'
    /\ forall p q, p < n -> q < n ->
         entry NaN m' p q = masked win_size corr p q.
Proof.
  intros Hm. unfold mask_loop, range. rewrite Nat2Z.id.
  assert (Hseq : Forall (fun i => i < n) (seq 0 n)).
  { apply Forall_forall. intros x Hx. apply in_seq in Hx. lia. }
  destruct (mask_rows win_size n n (seq 0 n) (seq 0 n) Hseq Hseq corr Hm)
    as (m' & E & Hm' & Hent).
  exists m'. repeat split; try apply Hm'; [exact E|].
  intros p q Hp Hq. rewrite Hent, !existsb_eqb_seq. unfold masked.
  apply Nat.ltb_lt in Hp, Hq. rewrite Hp, Hq. reflexivity.
Qed.

Lemma overlaps_iff (win_size : Z) (p q : nat) :
  overlaps win_size p q = true
  <-> (Z.abs (Z.of_nat p - Z.of_nat q) < win_size)%Z /\ p <> q.
Proof.
  unfold overlaps. rewrite andb_true_iff, Z.ltb_lt, negb_true_iff, Nat.eqb_neq.
  reflexivity.
Qed.

(** ** The order on correlation values and [argmax] *)

Lemma rank_le_refl (x : fval) : rank_le x x = true.
Proof.
  destruct x; simpl; auto. apply Qle_bool_iff. apply Qle_refl.
Qed.

Lemma rank_le_trans (x y z : fval) :
  rank_le x y = true -> rank_le y z = true -> rank_le x z = true.
Proof.
  destruct x, y, z; simpl; auto; try discriminate.
  rewrite !Qle_bool_iff. apply Qle_trans.
Qed.

Lemma rank_le_total (x y : fval) :
  rank_le x y = false -> rank_le y x = true.
Proof.
  destruct x, y; simpl; auto; try discriminate.
  intros H. apply Qle_bool_iff.
  destruct (Qlt_le_dec q0 q) as [Hlt|Hle].
  - apply Qlt_le_weak. exact Hlt.
  - apply Qle_bool_iff in Hle. congruence.
Qed.

Lemma rank_le_fle (x mp : fval) :
  is_nan mp = false -> rank_le x mp = fle x mp.
Proof. destruct mp; simpl; [discriminate | reflexivity ..]. Qed.

Lemma rank_le_NegInf (x : fval) : rank_le x NegInf = true -> x = NegInf.
Proof. destruct x; simpl; congruence. Qed.

Lemma first_max_snoc_keep (done : list fval) (k : nat) (x : fval) :
  first_max done k -> rank_le x (nth k done NaN) = true ->
  first_max (done ++ [x]) k.
Proof.
  intros (Hk & Hall & Hfirst) Hx. unfold first_max.
  rewrite length_app. simpl. rewrite (app_nth1 done [x] NaN Hk).
  repeat split; [lia | | ].
  - intros q Hq. destruct (Nat.lt_ge_cases q (length done)) as [H|H].
    + rewrite app_nth1 by assumption. apply Hall; assumption.
    + rewrite app_nth2 by assumption.
      replace (q - length done) with 0 by lia. exact Hx.
  - intros q Hq. rewrite app_nth1 by lia. apply Hfirst; assumption.
Qed.

Lemma first_max_snoc_new (done : list fval) (k : nat) (x : fval) :
  first_max done k -> rank_le x (nth k done NaN) = false ->
  first_max (done ++ [x]) (length done).
Proof.
  intros (Hk & Hall & Hfirst) Hx. unfold first_max.
  rewrite length_app. simpl.
  rewrite (app_nth2 done [x] NaN (Nat.le_refl _)), Nat.sub_diag. simpl.
  repeat split; [lia | | ].
  - intros q Hq. destruct (Nat.lt_ge_cases q (length done)) as [H|H].
    + rewrite app_nth1 by assumption.
      apply (rank_le_trans _ (nth k done NaN)); [apply Hall; assumption|].
      apply rank_le_total; assumption.
    + rewrite app_nth2 by assumption.
      replace (q - length done) with 0 by lia. apply rank_le_refl.
  - intros q Hq. rewrite app_nth1 by assumption.
    destruct (rank_le x (nth q done NaN)) eqn:E; [|reflexivity].
    rewrite (rank_le_trans _ _ _ E (Hall q Hq)) in Hx. discriminate.
Qed.

Lemma first_max_nan_app (done l : list fval) (k : nat) :
  first_max done k -> is_nan (nth k done NaN) = true ->
  first_max (done ++ l) k.
Proof.
  intros (Hk & Hall & Hfirst) Hnan. unfold first_max.
  rewrite length_app, (app_nth1 done l NaN Hk).
  repeat split; [lia | | ].
  - intros q _. destruct (nth k done NaN); try discriminate. reflexivity.
  - intros q Hq. rewrite app_nth1 by lia. apply Hfirst; assumption.
Qed.

Lemma argmax_scan_spec (l done : list fval) (max_ind : nat) :
  first_max done max_ind ->
  first_max (done ++ l)
            (argmax_scan (nth max_ind done NaN) max_ind (length done) l).
Proof.
  revert done max_ind. induction l as [|x t IH]; intros done k Hfm.
  - rewrite app_nil_r. exact Hfm.
  - cbn [argmax_scan].
    destruct (is_nan (nth k done NaN)) eqn:Enan.
    + apply first_max_nan_app; assumption.
    + pose proof (rank_le_fle x _ Enan) as Hrk.
      assert (Hlen : length (done ++ [x]) = S (length done))
        by (rewrite length_app; simpl; lia).
      destruct (fle x (nth k done NaN)) eqn:Efle; cbn [negb].
      * pose proof (IH (done ++ [x]) k
                      (first_max_snoc_keep done k x Hfm Hrk)) as H.
        rewrite (app_nth1 done [x] NaN (proj1 Hfm)), Hlen, <- app_assoc in H.
        exact H.
      * pose proof (IH (done ++ [x]) (length done)
                      (first_max_snoc_new done k x Hfm Hrk)) as H.
        rewrite (app_nth2 done [x] NaN (Nat.le_refl _)), Nat.sub_diag, Hlen,
          <- app_assoc in H.
        exact H.
Qed.

Lemma argmax_row_spec (row : list fval) :
  row <> [] -> first_max row (argmax_row row).
Proof.
  destruct row as [|x t]; [congruence|]. intros _.
  apply (argmax_scan_spec t [x] 0).
  unfold first_max. simpl. repeat split; [lia | | lia].
  intros [|q] Hq; [apply rank_le_refl | lia].
Qed.

(** The first greatest entry is unique. *)
Lemma first_max_unique (row : list fval) (k k' : nat) :
  first_max row k -> first_max row k' -> k = k'.
Proof.
  intros (Hk & Hall & Hfirst) (Hk' & Hall' & Hfirst').
  destruct (Nat.lt_trichotomy k k') as [H|[H|H]]; [|assumption|].
  - specialize (Hfirst' k H). specialize (Hall k' Hk'). congruence.
  - specialize (Hfirst k' H). specialize (Hall' k Hk). congruence.
Qed.

(** ** Equality of arrays, entry by entry *)

Lemma ndarray_ext {A : Type} (dflt : A) (r c : nat) (a b : ndarray A) :
  has_shape r c a -> has_shape r c b ->
  (forall p q, p < r -> q < c -> entry dflt a p q = entry dflt b p q) ->
  a = b.
Proof.
  destruct a as [ca ra], b as [cb rb].
  intros (Hra & Hca & Hwa) (Hrb & Hcb & Hwb) Hent.
  unfold shape0, wf, entry in *. simpl in *. subst ca cb. f_equal.
  apply (nth_ext ra rb [] []); [congruence|].
  intros p Hp. rewrite Forall_forall in Hwa, Hwb.
  assert (Hla : length (nth p ra []) = c) by (apply Hwa, nth_In; lia).
  assert (Hlb : length (nth p rb []) = c) by (apply Hwb, nth_In; lia).
  apply (nth_ext _ _ dflt dflt); [congruence|].
  intros q Hq. apply Hent; lia.
Qed.

Lemma mask_pure_shape (win_size : Z) (r c : nat) (corr : ndarray fval) :
  has_shape r c corr -> has_shape r c (mask_pure win_size corr).
Proof.
  intros (Hr & Hc & _). unfold has_shape, mask_pure, shape0, wf. simpl.
  rewrite length_map, length_seq. repeat split; auto.
  apply Forall_map, Forall_forall. intros p _.
  rewrite length_map, length_seq. reflexivity.
Qed.

Lemma mask_pure_entry (win_size : Z) (corr : ndarray fval) (p q : nat) :
  p < shape0 corr -> q < ncols corr ->
  entry NaN (mask_pure win_size corr) p q = masked win_size corr p q.
Proof.
  intros Hp Hq. unfold entry, mask_pure. simpl.
  rewrite (nth_indep _ [] (map (masked win_size corr 0) (seq 0 (ncols corr))))
    by (rewrite length_map, length_seq; exact Hp).
  rewrite (map_nth (fun p => map (masked win_size corr p) (seq 0 (ncols corr)))
             (seq 0 (shape0 corr)) 0 p).
  rewrite seq_nth by exact Hp. simpl.
  rewrite (nth_indep _ NaN (masked win_size corr p 0))
    by (rewrite length_map, length_seq; exact Hq).
  rewrite (map_nth (masked win_size corr p) (seq 0 (ncols corr)) 0 q).
  rewrite seq_nth by exact Hq. reflexivity.
Qed.

(** The double loop computes [mask_pure]. *)
Lemma mask_loop_pure (n : nat) (win_size : Z) (corr : ndarray fval) :
  has_shape n n corr ->
  mask_loop corr (Z.of_nat n) win_size = Ok (mask_pure win_size corr).
Proof.
  intros Hm. destruct (mask_loop_spec n win_size corr Hm) as (m' & E & Hm' & Hent).
  rewrite E. f_equal.
  apply (ndarray_ext NaN n n); [assumption | apply mask_pure_shape; assumption |].
  intros p q Hp Hq. rewrite Hent by assumption.
  destruct Hm as (Hr & Hc & _).
  rewrite mask_pure_entry; [reflexivity | lia | lia].
Qed.

(** ** Counting the hits *)

Lemma combine_seq {A : Type} (d : A) (l : list A) (s : nat) :
  combine l (seq s (length l))
  = map (fun p => (nth (p - s) l d, p)) (seq s (length l)).
Proof.
  revert s. induction l as [|a l IH]; intros s; simpl; [reflexivity|].
  rewrite Nat.sub_diag. f_equal. rewrite IH. apply map_ext_in.
  intros p Hp. apply in_seq in Hp.
  replace (p - s) with (S (p - S s)) by lia. reflexivity.
Qed.

Lemma filter_map_length {A B : Type} (g : B -> bool) (h : A -> B) (l : list A) :
  length (filter g (map h l)) = length (filter (fun x => g (h x)) l).
Proof.
  induction l as [|a l IH]; simpl; [reflexivity|].
  destruct (g (h a)); simpl; congruence.
Qed.

Lemma filter_length_le {A : Type} (g : A -> bool) (l : list A) :
  length (filter g l) <= length l.
Proof.
  induction l as [|a l IH]; simpl; [lia|]. destruct (g a); simpl; lia.
Qed.

Lemma count_hits_spec (n : nat) (corr : ndarray fval) :
  shape0 corr = n ->
  count_hits (map argmax_row (rows corr)) (Z.of_nat n) = hits n corr.
Proof.
  intros Hn. unfold count_hits, hits, range. rewrite Nat2Z.id.
  unfold shape0 in Hn.
  replace n with (length (map argmax_row (rows corr)))
    by (rewrite length_map; exact Hn).
  rewrite (combine_seq 0), filter_map_length. simpl.
  rewrite length_map, Hn. f_equal. apply filter_ext_in. intros p Hp.
  apply in_seq in Hp. rewrite Nat.sub_0_r.
  rewrite (nth_indep _ 0 (argmax_row [])) by (rewrite length_map; lia).
  rewrite (map_nth argmax_row). reflexivity.
Qed.

Lemma hits_le (n : nat) (corr : ndarray fval) : hits n corr <= n.
Proof.
  unfold hits. etransitivity; [apply filter_length_le|].
  rewrite length_seq. lia.
Qed.

Lemma score_ok (n : nat) (corr : ndarray fval) :
  0 < n -> shape0 corr = n -> ncols corr = n ->
  score corr (Z.of_nat n) = Ok (Qmake (Z.of_nat (hits n corr)) (Pos.of_nat n)).
Proof.
  intros Hn Hr Hc. unfold score, np_argmax_axis1, py_div.
  destruct (Nat.eqb_spec (ncols corr) 0) as [H|_]; [lia|]. cbn [bind].
  destruct (Z.eqb_spec (Z.of_nat n) 0) as [H|_]; [lia|].
  rewrite count_hits_spec by assumption.
  do 2 f_equal. lia.
Qed.

(** ** The run on well-shaped input *)

Section Run.

Context {F : Type} {SF : Scalar F} {CF : Collaborators F}.

Lemma np_zeros_nat (r c : nat) :
  np_zeros (Z.of_nat r) (Z.of_nat c) = Ok (zeros r c).
Proof.
  unfold np_zeros, zeros.
  destruct (Z.ltb_spec (Z.of_nat r) 0); [lia|].
  destruct (Z.ltb_spec (Z.of_nat c) 0); [lia|].
  simpl. rewrite !Nat2Z.id. reflexivity.
Qed.

Lemma np_zeros_raises (r c : Z) (e : exn) :
  np_zeros r c = Raise e -> e = ValueError.
Proof. unfold np_zeros. destruct (_ || _)%bool; congruence. Qed.

Lemma zeros_shape (r c : nat) : has_shape r c (zeros r c).
Proof.
  unfold has_shape, zeros, shape0, wf. simpl. rewrite repeat_length.
  repeat split. apply Forall_repeat. apply repeat_length.
Qed.

(** Construction of [tst_data]. *)
Lemma tst_data_ok (data : list (ndarray F)) (m : nat) (d : ndarray F)
    (D W ns : nat) :
  getitem data m = Ok d -> admits D W ns d ->
  fill_segments assign data m D (Z.of_nat ns) (Z.of_nat W) (zeros (D * W) ns)
  = Ok (segment_matrix W ns d).
Proof.
  intros Hget (Hwf & HD & HW).
  rewrite (fill_segments_ok assign data m d D W ns); auto.
  - f_equal. unfold segment_matrix at 2. f_equal.
    apply (map2_map2_assign ns).
    + change (shape0 (zeros (D * W) ns) = shape0 (segment_matrix W ns d)).
      rewrite segment_matrix_length.
      destruct (zeros_shape (D * W) ns) as (-> & _). congruence.
    + apply (zeros_shape (D * W) ns).
    + apply (segment_matrix_wf W ns d); assumption.
  - destruct (zeros_shape (D * W) ns) as (-> & _). lia.
Qed.

Lemma nd_add_shape (a b : ndarray F) (r c : nat) :
  shape0 a = r -> ncols a = c -> shape0 b = r ->
  shape0 (nd_add a b) = r /\ ncols (nd_add a b) = c.
Proof.
  unfold shape0, nd_add. simpl. intros Ha Hc Hb.
  rewrite map2_length. split; [lia | assumption].
Qed.

Lemma getitem_app {A : Type} (pre l : list A) (x : A) :
  getitem (pre ++ x :: l) (length pre) = Ok x.
Proof.
  unfold getitem. rewrite nth_error_app2 by lia.
  rewrite Nat.sub_diag. reflexivity.
Qed.

(** The accumulation loop, from subject [length pre] on. *)
Lemma accumulate_from (D W ns : nat) (l pre : list (ndarray F)) :
  Forall (admits D W ns) l ->
  forall trn, shape0 trn = W * D -> ncols trn = ns ->
  foldM (fun trn m =>
           fill_segments fadd (pre ++ l) m D (Z.of_nat ns) (Z.of_nat W) trn)
        (seq (length pre) (length l)) trn
  = Ok (fold_left nd_add (map (segment_matrix W ns) l) trn).
Proof.
  intros Hl. revert pre. induction Hl as [|d l Hd _ IH]; intros pre trn Hr Hc.
  - reflexivity.
  - cbn [length seq foldM map fold_left].
    destruct Hd as (Hwf & HD & HW).
    rewrite (fill_segments_ok fadd _ _ d D W ns); auto using getitem_app.
    cbn [bind].
    change (mk_ndarray ns (map2 (map2 fadd) (rows trn)
                                (rows (segment_matrix W ns d))))
      with (mk_ndarray ns (rows (nd_add trn (segment_matrix W ns d)))).
    replace (mk_ndarray ns (rows (nd_add trn (segment_matrix W ns d))))
      with (nd_add trn (segment_matrix W ns d))
      by (unfold nd_add; simpl; congruence).
    specialize (IH (pre ++ [d])).
    rewrite <- app_assoc, length_app, Nat.add_1_r in IH. simpl in IH.
    apply IH.
    + apply nd_add_shape with (c := ns); auto.
      rewrite segment_matrix_length. lia.
    + simpl. assumption.
Qed.

Lemma accumulate_ok (D W ns : nat) (data : list (ndarray F)) :
  Forall (admits D W ns) data ->
  accumulate data D (Z.of_nat ns) (Z.of_nat W) (zeros (D * W) ns)
  = Ok (group_sum D W ns data).
Proof.
  intros Hd. unfold accumulate, range, group_sum. rewrite Nat2Z.id.
  apply (accumulate_from D W ns data [] Hd).
  - destruct (zeros_shape (D * W) ns) as (-> & _). lia.
  - reflexivity.
Qed.

Lemma fold_nd_add_shape (r c : nat) (l : list (ndarray F)) (acc : ndarray F) :
  Forall (fun s => shape0 s = r) l ->
  shape0 acc = r -> ncols acc = c ->
  shape0 (fold_left nd_add l acc) = r /\ ncols (fold_left nd_add l acc) = c.
Proof.
  intros Hl. revert acc. induction Hl as [|s l Hs _ IH]; intros acc Hr Hc.
  - simpl. auto.
  - simpl. apply IH; apply (nd_add_shape acc s r c); assumption.
Qed.

Lemma group_sum_shape (D W ns : nat) (data : list (ndarray F)) :
  Forall (admits D W ns) data ->
  shape0 (group_sum D W ns data) = D * W /\ ncols (group_sum D W ns data) = ns.
Proof.
  intros Hd. unfold group_sum. apply fold_nd_add_shape.
  - apply Forall_map. eapply Forall_impl; [|exact Hd].
    intros d (_ & HD & _). rewrite segment_matrix_length. congruence.
  - apply (zeros_shape (D * W) ns).
  - reflexivity.
Qed.

Lemma standardize_T_shape0 (a : ndarray F) :
  shape0 (standardize_T a) = ncols a.
Proof.
  unfold shape0, standardize_T, columns. simpl.
  rewrite !length_map, length_seq. reflexivity.
Qed.

Lemma correlation_matrix_shape (ns : nat) (trn tst : ndarray F) :
  ncols trn = ns -> ncols tst = ns ->
  has_shape ns ns (correlation_matrix trn tst).
Proof.
  intros Ht Hs.
  pose proof (standardize_T_shape0 (corrected_template trn tst)) as HA.
  pose proof (standardize_T_shape0 tst) as HB.
  unfold shape0 in HA, HB. simpl ncols in HA.
  unfold has_shape, shape0, wf, correlation_matrix, correlate.
  cbn [rows ncols]. rewrite length_map, HA, HB.
  split; [|split]; try congruence.
  apply Forall_forall. intros r Hr. apply in_map_iff in Hr.
  destruct Hr as (x & <- & _). rewrite length_map. congruence.
Qed.

(** On operands with at least one segment and at least one row, the
    correlation routine returns the matrix of coefficients. *)
Lemma compute_correlation_ok (ns Fn : nat) (trn tst : ndarray F) :
  ncols trn = ns -> ncols tst = ns ->
  shape0 trn = Fn -> shape0 tst = Fn -> 0 < ns -> 0 < Fn ->
  compute_correlation (standardize_T tst)
                      (standardize_T (corrected_template trn tst))
  = Ok (correlation_matrix trn tst).
Proof.
  intros Ht Hs Hrt Hrs Hns HF. unfold compute_correlation.
  rewrite !standardize_T_shape0.
  assert (Hc : ncols (standardize_T (corrected_template trn tst)) = Fn).
  { unfold standardize_T, corrected_template, nd_sub, shape0 in *. simpl.
    rewrite map2_length. lia. }
  assert (Hb : ncols (standardize_T tst) = Fn) by exact Hrs.
  rewrite Hb, Hc, Nat.eqb_refl. simpl negb.
  unfold corrected_template at 1. simpl ncols. rewrite Ht, Hs.
  destruct (Nat.eqb_spec ns 0) as [E|_]; [lia|].
  destruct (Nat.eqb_spec Fn 0) as [E|_]; [lia|].
  reflexivity.
Qed.

(** One iteration of the leave-one-out loop stores the subject's accuracy. *)
Lemma analyze_subject_ok (data : list (ndarray F)) (i : nat) (d trn : ndarray F)
    (D W ns : nat) (accuracy : list Q) :
  getitem data i = Ok d -> admits D W ns d -> 0 < ns -> 0 < D -> 0 < W ->
  ncols trn = ns -> shape0 trn = D * W ->
  analyze_subject data D (Z.of_nat ns) (Z.of_nat W) trn accuracy i
  = setitem1 accuracy i (subject_accuracy (Z.of_nat W) W ns trn d).
Proof.
  intros Hget Hd Hns HD HW Htrn Hrows. unfold analyze_subject.
  replace (Z.of_nat D * Z.of_nat W)%Z with (Z.of_nat (D * W)) by lia.
  rewrite np_zeros_nat. cbn [bind].
  rewrite (tst_data_ok data i d D W ns Hget Hd). cbn [bind].
  unfold masked_correlation.
  rewrite (compute_correlation_ok ns (D * W)); auto; try nia.
  - cbn [bind].
    pose proof (correlation_matrix_shape ns trn (segment_matrix W ns d)
                  Htrn eq_refl) as Hshape.
    rewrite (mask_loop_pure ns _ _ Hshape). cbn [bind].
    destruct (mask_pure_shape (Z.of_nat W) ns ns _ Hshape) as (Hr & Hc & _).
    rewrite (score_ok ns _ Hns Hr Hc). reflexivity.
  - rewrite segment_matrix_length. destruct Hd as (_ & Hd0 & _). congruence.
Qed.

End Run.

(** ** The accuracy vector *)

Lemma setitem_loop (g : nat -> Q) (n : nat) :
  forall s v, s + n <= length v ->
  exists v',
    foldM (fun v i => setitem1 v i (g i)) (seq s n) v = Ok v'
    /\ length v' = length v
    /\ forall k, nth k v' 0%Q
         = if (s <=? k) && (k <? s + n) then g k else nth k v 0%Q.
Proof.
  induction n as [|n IH]; intros s v Hlen.
  - exists v. repeat split. intros k.
    destruct (Nat.leb_spec s k), (Nat.ltb_spec k (s + 0)); simpl;
      try reflexivity; lia.
  - cbn [seq foldM]. unfold setitem1 at 1.
    destruct (Nat.ltb_spec s (length v)) as [Hs|Hs]; [|lia]. cbn [bind].
    destruct (IH (S s) (upd s (fun _ => g s) v)) as (v' & E & Hl & Hnth).
    { rewrite upd_length. lia. }
    exists v'. rewrite upd_length in Hl. repeat split; [exact E | exact Hl |].
    intros k. rewrite Hnth, (nth_upd s k) by assumption.
    destruct (Nat.eqb_spec k s) as [->|Hk].
    + destruct (Nat.leb_spec (S s) s), (Nat.leb_spec s s),
        (Nat.ltb_spec s (s + S n)); simpl; try reflexivity; lia.
    + destruct (Nat.leb_spec (S s) k), (Nat.leb_spec s k),
        (Nat.ltb_spec k (S s + n)), (Nat.ltb_spec k (s + S n)); simpl;
        try reflexivity; lia.
Qed.

Lemma map_nth_seq {A B : Type} (f : A -> B) (d : A) (l : list A) :
  map (fun i => f (nth i l d)) (seq 0 (length l)) = map f l.
Proof.
  apply (nth_ext _ _ (f d) (f d)); [rewrite !length_map, length_seq; reflexivity|].
  intros k Hk. rewrite length_map, length_seq in Hk.
  rewrite (map_nth f l d k).
  rewrite (nth_indep _ (f d) (f (nth 0 l d)))
    by (rewrite length_map, length_seq; exact Hk).
  rewrite (map_nth (fun i => f (nth i l d)) (seq 0 (length l)) 0 k).
  rewrite seq_nth by exact Hk. reflexivity.
Qed.

(** Filling every position of a vector, in order. *)
Lemma fill_vector {A : Type} (f : A -> Q) (d : A) (l : list A) :
  foldM (fun v i => setitem1 v i (f (nth i l d)))
        (seq 0 (length l)) (repeat 0%Q (length l))
  = Ok (map f l).
Proof.
  destruct (setitem_loop (fun i => f (nth i l d)) (length l) 0
              (repeat 0%Q (length l))) as (v' & E & Hl & Hnth).
  { rewrite repeat_length. lia. }
  rewrite E. f_equal. rewrite <- (map_nth_seq f d l).
  rewrite repeat_length in Hl.
  apply (nth_ext _ _ 0%Q 0%Q); [rewrite length_map, length_seq; exact Hl|].
  intros k Hk. rewrite Hnth. simpl.
  destruct (Nat.ltb_spec k (length l)) as [H|H]; [|lia].
  rewrite (nth_indep _ 0%Q (f (nth 0 l d)))
    by (rewrite length_map, length_seq; exact H).
  rewrite (map_nth (fun i => f (nth i l d)) (seq 0 (length l)) 0 k).
  rewrite seq_nth by exact H. reflexivity.
Qed.

Section Whole.

Context {F : Type} {SF : Scalar F} {CF : Collaborators F}.

(** On a non-empty list of subjects that all have [D] features and at
    least [W + ns] time points, the first one exactly [W + ns], a run with
    window [W] returns the accuracies computed from the group sum. *)
Lemma run_ok (D W ns : nat) (d0 : ndarray F) (rest : list (ndarray F)) :
  Forall (admits D W ns) (d0 :: rest) -> ncols d0 = W + ns ->
  0 < ns -> 0 < D -> 0 < W ->
  time_segment_matching (d0 :: rest) (Z.of_nat W)
  = Ok (map (subject_accuracy (Z.of_nat W) W ns
               (group_sum D W ns (d0 :: rest)))
            (d0 :: rest)).
Proof.
  intros Hall HT Hns HD HW. set (data := d0 :: rest) in *.
  assert (H0 : admits D W ns d0) by (inversion Hall; assumption).
  destruct H0 as (Hwf0 & HD0 & _).
  unfold time_segment_matching. change (getitem data 0) with (Ok d0).
  cbn [bind]. unfold shape1. rewrite HD0, HT.
  replace (Z.of_nat (W + ns) - Z.of_nat W)%Z with (Z.of_nat ns) by lia.
  replace (Z.of_nat D * Z.of_nat W)%Z with (Z.of_nat (D * W)) by lia.
  rewrite np_zeros_nat. cbn [bind].
  rewrite (accumulate_ok D W ns data Hall). cbn [bind].
  unfold range. rewrite Nat2Z.id.
  destruct (group_sum_shape D W ns data Hall) as [Hr Hc].
  rewrite (foldM_ext _
             (fun v i => setitem1 v i
                (subject_accuracy (Z.of_nat W) W ns (group_sum D W ns data)
                   (nth i data d0)))).
  - apply fill_vector.
  - intros v i Hi. apply in_seq in Hi.
    apply analyze_subject_ok; auto.
    + unfold getitem. rewrite (nth_error_nth' data d0) by lia. reflexivity.
    + rewrite Forall_forall in Hall. apply Hall, nth_In. lia.
Qed.

End Whole.

(** ** Which exceptions can be raised *)

Lemma foldM_raise_inv {S X : Type} (P : exn -> Prop)
    (body : S -> X -> result S) (l : list X) :
  (forall s x e, In x l -> body s x = Raise e -> P e) ->
  forall s e, foldM body l s = Raise e -> P e.
Proof.
  intros Hb s e H.
  pose proof (foldM_raises P (fun _ => True) body l) as Hr.
  specialize (Hr (fun s x _ Hx =>
    match body s x as b return body s x = b -> match b with Ok _ => True | Raise e => P e end with
    | Ok _ => fun _ => I
    | Raise e' => fun E => Hb s x e' Hx E
    end eq_refl) s I).
  rewrite H in Hr. exact Hr.
Qed.

Lemma getitem_raises {A : Type} (l : list A) (i : nat) (e : exn) :
  getitem l i = Raise e -> e = IndexError.
Proof. unfold getitem. destruct (nth_error l i); congruence. Qed.

Lemma getitem_lt {A : Type} (l : list A) (i : nat) (d : A) :
  i < length l -> getitem l i = Ok (nth i l d).
Proof.
  intros H. unfold getitem. rewrite (nth_error_nth' l d H). reflexivity.
Qed.

Lemma setitem2_raises {A : Type} (a : ndarray A) (i j : nat) (v : A) (e : exn) :
  setitem2 a i j v = Raise e -> e = IndexError.
Proof. unfold setitem2. destruct (_ && _); congruence. Qed.

Lemma setitem1_raises {A : Type} (v : list A) (i : nat) (x : A) (e : exn) :
  setitem1 v i x = Raise e -> e = IndexError.
Proof. unfold setitem1. destruct (_ <? _); congruence. Qed.

Lemma stretch_length {A : Type} (n : nat) (l : list A) :
  fits (length l) n = true -> length (stretch n l) = n.
Proof.
  unfold fits, stretch. intros H.
  destruct (Nat.eqb_spec (length l) n) as [E|E]; [exact E|].
  simpl in H. apply Nat.eqb_eq in H.
  destruct l as [|x [|y l]]; simpl in H; try discriminate.
  apply repeat_length.
Qed.

Lemma broadcast_length {A : Type} (x : ndarray A) (r c : nat) (l : list (list A)) :
  broadcast_to x r c = Ok l -> length l = r.
Proof.
  unfold broadcast_to. destruct (fits (shape0 x) r) eqn:E; simpl; [|discriminate].
  destruct (fits (ncols x) c); [|discriminate].
  intros H. inversion H. apply stretch_length.
  rewrite length_map. exact E.
Qed.

Lemma py_slice_bound {A : Type} (start stop : Z) (l : list A) :
  slice_start (length l) start + length (py_slice start stop l) <= length l.
Proof.
  unfold py_slice. rewrite length_firstn, length_skipn.
  assert (slice_start (length l) start <= length l); [|lia].
  unfold slice_start, clip. destruct (Z.ltb_spec start 0); lia.
Qed.

Lemma update_rows_inv {A : Type} (op : A -> A -> A) (a : ndarray A)
    (start stop : Z) (rhs : ndarray A) :
  match update_rows op a start stop rhs with
  | Ok b => ncols b = ncols a /\ shape0 b = shape0 a
  | Raise e => e = ValueError
  end.
Proof.
  destruct (update_rows op a start stop rhs) as [b|e] eqn:E.
  - split; [eapply update_rows_ncols; eassumption|].
    unfold update_rows in E. apply bind_Ok_inv in E as (r & Hr & E).
    apply broadcast_length in Hr. inversion E. unfold shape0. simpl.
    pose proof (py_slice_bound start stop (rows a)) as Hb.
    rewrite !length_app, map2_length, length_firstn, length_skipn, Hr.
    unfold shape0. lia.
  - eapply update_rows_raises; eassumption.
Qed.

Section Raises.

Context {F : Type} {SF : Scalar F} {CF : Collaborators F}.

Lemma fill_segments_inv (op : F -> F -> F) (data : list (ndarray F)) (m D : nat)
    (nseg win_size : Z) (buf : ndarray F) :
  m < length data ->
  match fill_segments op data m D nseg win_size buf with
  | Ok b => ncols b = ncols buf /\ shape0 b = shape0 buf
  | Raise e => e = ValueError
  end.
Proof.
  intros Hm. unfold fill_segments.
  apply (foldM_raises (fun e => e = ValueError)
           (fun s => ncols s = ncols buf /\ shape0 s = shape0 buf)); [|auto].
  intros s w (Hc & Hr) _.
  rewrite (getitem_lt data m buf Hm). cbn [bind].
  match goal with |- match ?u with _ => _ end =>
    pose proof (update_rows_inv op s (Z.of_nat w * Z.of_nat D)
                  ((Z.of_nat w + 1) * Z.of_nat D)
                  (slice_cols (nth m data buf) (Z.of_nat w) (Z.of_nat w + nseg))) as H;
    destruct u
  end; [|exact H].
  destruct H; split; congruence.
Qed.

Lemma accumulate_inv (data : list (ndarray F)) (D : nat) (nseg win_size : Z)
    (trn : ndarray F) :
  match accumulate data D nseg win_size trn with
  | Ok b => ncols b = ncols trn /\ shape0 b = shape0 trn
  | Raise e => e = ValueError
  end.
Proof.
  unfold accumulate, range. rewrite Nat2Z.id.
  apply (foldM_raises (fun e => e = ValueError)
           (fun s => ncols s = ncols trn /\ shape0 s = shape0 trn)); [|auto].
  intros s m (Hc & Hr) Hm. apply in_seq in Hm.
  pose proof (fill_segments_inv fadd data m D nseg win_size s ltac:(lia)) as H.
  destruct (fill_segments fadd data m D nseg win_size s); [|exact H].
  destruct H; split; congruence.
Qed.

Lemma mask_loop_raises (corr : ndarray fval) (nseg win_size : Z) (e : exn) :
  mask_loop corr nseg win_size = Raise e -> e = IndexError.
Proof.
  unfold mask_loop.
  apply (foldM_raise_inv (fun e => e = IndexError)). intros s i e' _.
  apply (foldM_raise_inv (fun e => e = IndexError)). intros s' j e'' _.
  destruct (overlaps win_size i j); [apply setitem2_raises | discriminate].
Qed.

Lemma score_raises (corr : ndarray fval) (nseg : Z) (e : exn) :
  score corr nseg = Raise e -> builtin e = true.
Proof.
  unfold score, np_argmax_axis1, py_div.
  destruct (ncols corr =? 0); cbn [bind]; [intros H; inversion H; reflexivity|].
  destruct (nseg =? 0)%Z; [intros H; inversion H; reflexivity | discriminate].
Qed.

Lemma compute_correlation_raises (X Y : ndarray F) (e : exn) :
  compute_correlation X Y = Raise e -> e = IndexError \/ e = ValueError.
Proof.
  unfold compute_correlation.
  destruct (negb (ncols X =? ncols Y)); [intros H; inversion H; auto|].
  destruct ((shape0 X =? 0) || (shape0 Y =? 0) || (ncols X =? 0));
    [intros H; inversion H; auto | discriminate].
Qed.

Lemma masked_correlation_raises (trn tst : ndarray F) (nseg win_size : Z)
    (e : exn) :
  masked_correlation trn tst nseg win_size = Raise e ->
  e = IndexError \/ e = ValueError.
Proof.
  unfold masked_correlation. intros H.
  apply bind_Raise_inv in H as [H | (corr & _ & H)];
    [eapply compute_correlation_raises; eassumption|].
  apply mask_loop_raises in H. auto.
Qed.

Lemma analyze_subject_raises (data : list (ndarray F)) (D : nat)
    (nseg win_size : Z) (trn : ndarray F) (accuracy : list Q) (i : nat) (e : exn) :
  i < length data ->
  analyze_subject data D nseg win_size trn accuracy i = Raise e ->
  builtin e = true.
Proof.
  intros Hi. unfold analyze_subject. intros H.
  apply bind_Raise_inv in H as [H | (tst0 & _ & H)];
    [apply np_zeros_raises in H; subst; reflexivity|].
  apply bind_Raise_inv in H as [H | (tst & _ & H)].
  { pose proof (fill_segments_inv assign data i D nseg win_size tst0 Hi) as Hf.
    rewrite H in Hf. subst. reflexivity. }
  apply bind_Raise_inv in H as [H | (corr & _ & H)];
    [apply masked_correlation_raises in H as [-> | ->]; reflexivity|].
  apply bind_Raise_inv in H as [H | (acc & _ & H)];
    [eapply score_raises; eassumption|].
  apply setitem1_raises in H. subst. reflexivity.
Qed.

(** The function raises built-in exceptions only. *)
Lemma run_raises_builtin (data : list (ndarray F)) (win_size : Z) (e : exn) :
  time_segment_matching data win_size = Raise e -> builtin e = true.
Proof.
  unfold time_segment_matching. intros H.
  apply bind_Raise_inv in H as [H | (d0 & _ & H)];
    [apply getitem_raises in H; subst; reflexivity|].
  apply bind_Raise_inv in H as [H | (trn0 & _ & H)];
    [apply np_zeros_raises in H; subst; reflexivity|].
  apply bind_Raise_inv in H as [H | (trn & _ & H)].
  { match type of H with accumulate ?d ?D ?n ?w ?t = _ =>
      pose proof (accumulate_inv d D n w t) as Ha end.
    rewrite H in Ha. subst. reflexivity. }
  revert H. apply (foldM_raise_inv (fun e => builtin e = true)).
  intros s i e' Hi.
  unfold range in Hi. rewrite Nat2Z.id in Hi. apply in_seq in Hi.
  apply analyze_subject_raises. lia.
Qed.

End Raises.

(** ** Shapes of the sums *)

Lemma nth_map2 {A B C : Type} (f : A -> B -> C) (l : list A) (l' : list B)
    (i : nat) (da : A) (db : B) (dc : C) :
  i < length l -> i < length l' ->
  nth i (map2 f l l') dc = f (nth i l da) (nth i l' db).
Proof.
  revert l l'; induction i as [|i IH]; intros [|a l] [|b l'] H1 H2;
    simpl in *; try lia; [reflexivity|].
  apply IH; lia.
Qed.

Lemma row_length {A : Type} (r c : nat) (a : ndarray A) (p : nat) :
  has_shape r c a -> p < r -> length (nth p (rows a) []) = c.
Proof.
  intros (Hr & Hc & Hwf) Hp. unfold wf in Hwf. rewrite Forall_forall in Hwf.
  rewrite <- Hc. apply Hwf, nth_In. unfold shape0 in Hr. lia.
Qed.

Section Shapes.

Context {F : Type} {SF : Scalar F}.

Lemma nd_add_wf (c : nat) (a b : ndarray F) :
  ncols a = c -> wf a -> ncols b = c -> wf b -> wf (nd_add a b).
Proof.
  destruct a as [ca ra], b as [cb rb]. unfold wf, nd_add. simpl.
  intros -> Ha -> Hb. revert rb Hb.
  induction Ha as [|x ra Hx _ IH]; intros [|y rb] Hb; simpl; constructor.
  - inversion Hb; subst. rewrite map2_length. lia.
  - inversion Hb; subst. apply IH. assumption.
Qed.

Lemma fold_nd_add_wf (c : nat) (l : list (ndarray F)) (acc : ndarray F) :
  Forall (fun s => ncols s = c /\ wf s) l ->
  ncols acc = c -> wf acc -> wf (fold_left nd_add l acc).
Proof.
  intros Hl. revert acc. induction Hl as [|s l (Hc & Hs) _ IH]; intros acc Ha Hw.
  - exact Hw.
  - simpl. apply IH; [exact Ha|]. apply (nd_add_wf c); assumption.
Qed.

Lemma has_shape_admits (D T W : nat) (d : ndarray F) :
  has_shape D T d -> W <= T -> admits D W (T - W) d.
Proof. intros (Hr & Hc & Hwf) HW. unfold admits. repeat split; auto. lia. Qed.

Lemma segment_matrix_shape (D W ns : nat) (d : ndarray F) :
  admits D W ns d -> has_shape (D * W) ns (segment_matrix W ns d).
Proof.
  intros (Hwf & HD & HW). repeat split.
  - rewrite segment_matrix_length. congruence.
  - apply segment_matrix_wf; assumption.
Qed.

Lemma group_sum_has_shape (D W ns : nat) (data : list (ndarray F)) :
  Forall (admits D W ns) data -> has_shape (D * W) ns (group_sum D W ns data).
Proof.
  intros Hd. destruct (group_sum_shape D W ns data Hd) as [Hr Hc].
  repeat split; auto. unfold group_sum.
  replace (ncols (fold_left nd_add (map (segment_matrix W ns) data)
                    (zeros (D * W) ns))) with ns by (symmetry; exact Hc).
  apply (fold_nd_add_wf ns).
  - apply Forall_map. eapply Forall_impl; [|exact Hd]. intros d Had.
    split; [reflexivity | apply (segment_matrix_shape D W ns d Had)].
  - reflexivity.
  - apply (zeros_shape (D * W) ns).
Qed.

Lemma nd_sub_entry (dflt : F) (r c : nat) (a b : ndarray F) (p q : nat) :
  has_shape r c a -> has_shape r c b -> p < r -> q < c ->
  entry dflt (nd_sub a b) p q = fsub (entry dflt a p q) (entry dflt b p q).
Proof.
  intros Ha Hb Hp Hq. unfold entry, nd_sub. simpl.
  pose proof (row_length r c a p Ha Hp) as Hla.
  pose proof (row_length r c b p Hb Hp) as Hlb.
  destruct Ha as (Hra & _), Hb as (Hrb & _). unfold shape0 in *.
  rewrite (nth_map2 (map2 fsub) (rows a) (rows b) p [] [] []) by lia.
  apply nth_map2; lia.
Qed.

End Shapes.

Lemma concat_block {A : Type} (D : nat) (blocks : list (list A)) :
  Forall (fun b => length b = D) blocks ->
  forall w, w < length blocks ->
    firstn D (skipn (w * D) (concat blocks)) = nth w blocks [].
Proof.
  intros H. induction H as [|b bs Hb _ IH]; intros w Hw; simpl in Hw; [lia|].
  destruct w as [|w]; cbn [concat nth].
  - simpl. rewrite <- Hb, firstn_app, firstn_all, Nat.sub_diag. simpl.
    apply app_nil_r.
  - replace (S w * D) with (length b + w * D) by (simpl; lia).
    rewrite skipn_app, skipn_all2 by lia.
    replace (length b + w * D - length b) with (w * D) by lia.
    simpl. apply IH. lia.
Qed.

Section SegmentBlocks.

Context {F : Type} {SF : Scalar F}.

Lemma segment_matrix_block (W ns w : nat) (d : ndarray F) :
  w < W ->
  firstn (shape0 d) (skipn (w * shape0 d) (rows (segment_matrix W ns d)))
  = seg_block d ns w.
Proof.
  intros Hw. unfold segment_matrix. simpl.
  rewrite (concat_block (shape0 d)).
  - rewrite (nth_indep _ [] (seg_block d ns 0))
      by (rewrite length_map, length_seq; exact Hw).
    rewrite (map_nth (seg_block d ns) (seq 0 W) 0 w).
    rewrite seq_nth by exact Hw. reflexivity.
  - apply Forall_map, Forall_forall. intros x _. apply seg_block_length.
  - rewrite length_map, length_seq. exact Hw.
Qed.

End SegmentBlocks.

(** * Leave-one-out correction, segments and the mask *)

Section Claims.

Context {F : Type} {SF : Scalar F} {CF : Collaborators F}.

(** C1 (leave-one-out correction).  On at least one subject, all of one
    shape [D] by [T] with [0 < D], and a window [0 < W < T]: the
    accumulation loop returns the entrywise sum of the segment matrices
    of all subjects, the held-out one included, added in subject order
    starting from zeros; for the subject at position [i], the loop body
    builds that subject's segment matrix as [tst_data]; and the
    accuracies the function returns are those of classifying each
    subject's segment matrix against [GroupSum - SegmentMatrix(i)],
    whose entries are the differences, in the arithmetic of the arrays,
    of the entries of the two. *)
Theorem leave_one_out_correction (D T W : nat) (data : list (ndarray F)) :
  data <> [] -> Forall (has_shape D T) data -> 0 < D -> 0 < W -> W < T ->
  let ns := T - W in
  let nseg := (Z.of_nat T - Z.of_nat W)%Z in
  let G := fold_left nd_add (map (segment_matrix W ns) data)
             (zeros (D * W) ns) in
  (trn0 <- np_zeros (Z.of_nat D * Z.of_nat W) nseg ;;
   accumulate data D nseg (Z.of_nat W) trn0) = Ok G
  /\ (forall i d, nth_error data i = Some d ->
        (tst0 <- np_zeros (Z.of_nat D * Z.of_nat W) nseg ;;
         fill_segments assign data i D nseg (Z.of_nat W) tst0)
        = Ok (segment_matrix W ns d))
  /\ time_segment_matching data (Z.of_nat W)
     = Ok (map (fun d =>
                  let Sg := segment_matrix W ns d in
                  Qmake
                    (Z.of_nat
                       (hits ns
                          (mask_pure (Z.of_nat W)
                             (correlate (rows (standardize_T Sg))
                                (rows (standardize_T (nd_sub G Sg)))))))
                    (Pos.of_nat ns))
               data)
  /\ (forall d p q, In d data -> p < D * W -> q < ns ->
        entry fzero (nd_sub G (segment_matrix W ns d)) p q
        = fsub (entry fzero G p q) (entry fzero (segment_matrix W ns d) p q)).
Proof.
  intros Hne Hshape HD HW HT ns nseg G.
  assert (Hadm : Forall (admits D W ns) data).
  { eapply Forall_impl; [|exact Hshape]. intros d Hd.
    apply has_shape_admits; [exact Hd | lia]. }
  assert (Hnseg : nseg = Z.of_nat ns) by (unfold nseg, ns; lia).
  rewrite Hnseg.
  replace (Z.of_nat D * Z.of_nat W)%Z with (Z.of_nat (D * W)) by lia.
  rewrite np_zeros_nat. cbn [bind].
  split; [apply accumulate_ok; exact Hadm|].
  split.
  - intros i d Hi.
    assert (Hget : getitem data i = Ok d)
      by (unfold getitem; rewrite Hi; reflexivity).
    apply tst_data_ok; [exact Hget|].
    rewrite Forall_forall in Hadm. apply Hadm.
    eapply nth_error_In; eassumption.
  - split.
    + destruct data as [|d0 rest]; [contradiction|].
      assert (H0 : has_shape D T d0) by (inversion Hshape; assumption).
      destruct H0 as (_ & HT0 & _).
      apply (run_ok D W ns d0 rest Hadm); unfold ns; lia.
    + intros d p q Hd Hp Hq.
      apply (nd_sub_entry fzero (D * W) ns); auto.
      * apply (group_sum_has_shape D W ns data Hadm).
      * apply segment_matrix_shape.
        rewrite Forall_forall in Hadm. apply Hadm. exact Hd.
Qed.

(** C4 (segment construction).  For a time series of shape [D] by [T] and
    a window [W < T], the construction of [tst_data] succeeds with an
    array of shape [D*W] by [T-W]; for every offset [w < W], its rows
    [w*D .. (w+1)*D-1] are the slice [d[:, w:w+nseg]], which has [D] rows
    and [nseg = T-W] columns: the columns [w .. w+nseg-1] of the series. *)
Theorem segment_construction (D T W : nat) (data : list (ndarray F))
    (i : nat) (d : ndarray F) :
  has_shape D T d -> W < T -> getitem data i = Ok d ->
  let nseg := (Z.of_nat T - Z.of_nat W)%Z in
  exists tst,
    (tst0 <- np_zeros (Z.of_nat D * Z.of_nat W) nseg ;;
     fill_segments assign data i D nseg (Z.of_nat W) tst0) = Ok tst
    /\ has_shape (D * W) (T - W) tst
    /\ forall w, w < W ->
         let blk := slice_cols d (Z.of_nat w) (Z.of_nat w + nseg) in
         py_slice (Z.of_nat w * Z.of_nat D) ((Z.of_nat w + 1) * Z.of_nat D)
                  (rows tst) = rows blk
         /\ has_shape D (T - W) blk
         /\ rows blk = map (fun r => firstn (T - W) (skipn w r)) (rows d).
Proof.
  intros Hd HW Hget nseg.
  assert (Hadm : admits D W (T - W) d) by (apply has_shape_admits; [exact Hd | lia]).
  exists (segment_matrix W (T - W) d).
  assert (Hnseg : nseg = Z.of_nat (T - W)) by (unfold nseg; lia).
  rewrite Hnseg.
  replace (Z.of_nat D * Z.of_nat W)%Z with (Z.of_nat (D * W)) by lia.
  rewrite np_zeros_nat. cbn [bind].
  split; [apply tst_data_ok; assumption|].
  split; [apply segment_matrix_shape; assumption|].
  intros w Hw. cbv zeta.
  destruct Hadm as (Hwf & HD & HT).
  destruct (slice_cols_block d (T - W) w Hwf ltac:(lia)) as [Hshape Hrows].
  rewrite HD in Hshape.
  repeat split; try apply Hshape; [|exact Hrows].
  rewrite Hrows.
  replace (Z.of_nat w * Z.of_nat D)%Z with (Z.of_nat (w * D)) by lia.
  replace ((Z.of_nat w + 1) * Z.of_nat D)%Z with (Z.of_nat (w * D + D)) by lia.
  rewrite py_slice_nat. replace (w * D + D - w * D) with D by lia.
  rewrite <- HD. apply segment_matrix_block. exact Hw.
Qed.

End Claims.

(** C2 (exclusion masking).  On an [n] by [n] correlation matrix the double
    loop succeeds, keeps the shape, and for all [p, q < n]: the entry is
    [-inf] when [|p-q| < win_size] and [p <> q], it is the entry of the
    input otherwise, and in particular the diagonal entry is never
    overwritten. *)
Theorem exclusion_masking (n : nat) (win_size : Z) (corr : ndarray fval) :
  has_shape n n corr ->
  exists m,
    mask_loop corr (Z.of_nat n) win_size = Ok m
    /\ has_shape n n m
    /\ forall p q, p < n -> q < n ->
         (((Z.abs (Z.of_nat p - Z.of_nat q) < win_size)%Z /\ p <> q) ->
            entry NaN m p q = NegInf)
         /\ (~ ((Z.abs (Z.of_nat p - Z.of_nat q) < win_size)%Z /\ p <> q) ->
            entry NaN m p q = entry NaN corr p q)
         /\ entry NaN m p p = entry NaN corr p p.
Proof.
  intros Hc. destruct (mask_loop_spec n win_size corr Hc) as (m & E & Hm & Hent).
  exists m. repeat split; try apply Hm; [exact E | | | ].
  - intros Hpq. rewrite Hent by assumption. unfold masked.
    apply overlaps_iff in Hpq. rewrite Hpq. reflexivity.
  - intros Hpq. rewrite Hent by assumption. unfold masked.
    destruct (overlaps win_size p q) eqn:Eo; [|reflexivity].
    apply overlaps_iff in Eo. contradiction.
  - rewrite Hent by assumption. unfold masked, overlaps.
    rewrite Nat.eqb_refl, andb_false_r. reflexivity.
Qed.

(** * Accuracies *)

(** ** Rational bounds *)

Lemma Zpos_of_nat (n : nat) : 0 < n -> Z.pos (Pos.of_nat n) = Z.of_nat n.
Proof.
  intros H. rewrite <- positive_nat_Z, Nat2Pos.id by lia. reflexivity.
Qed.

Lemma ratio_bounds (h n : nat) :
  0 < n -> h <= n ->
  (0 <= Qmake (Z.of_nat h) (Pos.of_nat n) <= 1)%Q.
Proof.
  intros Hn Hh. unfold Qle. simpl. rewrite Zpos_of_nat by assumption. lia.
Qed.

Lemma ratio_one (n : nat) :
  0 < n -> (Qmake (Z.of_nat n) (Pos.of_nat n) == 1)%Q.
Proof.
  intros Hn. unfold Qeq. simpl. rewrite Zpos_of_nat by assumption. lia.
Qed.

Lemma fold_Qmax_ge (t : list Q) (x : Q) :
  (x <= fold_left Qmax t x)%Q
  /\ Forall (fun a => (a <= fold_left Qmax t x)%Q) t.
Proof.
  revert x. induction t as [|a t IH]; intros x; simpl.
  - split; [apply Qle_refl | constructor].
  - destruct (IH (Qmax x a)) as [H1 H2]. split.
    + eapply Qle_trans; [apply Q.le_max_l | exact H1].
    + constructor; [eapply Qle_trans; [apply Q.le_max_r | exact H1] | exact H2].
Qed.

Lemma Qlist_max_ge (l : list Q) :
  Forall (fun a => (a <= Qlist_max l)%Q) l.
Proof.
  destruct l as [|x t]; [constructor|]. simpl.
  destruct (fold_Qmax_ge t x). constructor; assumption.
Qed.

(** ** Rows with a single candidate *)

Lemma argmax_row_peak (row : list fval) (p : nat) :
  p < length row -> nth p row NaN <> NegInf ->
  (forall q, q < length row -> q <> p -> nth q row NaN = NegInf) ->
  argmax_row row = p.
Proof.
  intros Hp Hpeak Hrest.
  assert (Hne : row <> []) by (destruct row; simpl in Hp; [lia | congruence]).
  destruct (argmax_row_spec row Hne) as (Hk & Hall & _).
  destruct (Nat.eq_dec (argmax_row row) p) as [E|E]; [exact E|].
  specialize (Hall p Hp). rewrite (Hrest _ Hk E) in Hall.
  apply rank_le_NegInf in Hall. contradiction.
Qed.

Lemma filter_all {A : Type} (g : A -> bool) (l : list A) :
  (forall x, In x l -> g x = true) -> filter g l = l.
Proof.
  induction l as [|a l IH]; intros H; simpl; [reflexivity|].
  rewrite (H a (or_introl eq_refl)). f_equal. apply IH.
  intros x Hx. apply H. right. exact Hx.
Qed.

Lemma mask_pure_row (win_size : Z) (corr : ndarray fval) (p : nat) :
  p < shape0 corr ->
  nth p (rows (mask_pure win_size corr)) []
  = map (masked win_size corr p) (seq 0 (ncols corr)).
Proof.
  intros Hp. unfold mask_pure. simpl.
  rewrite (nth_indep _ [] (map (masked win_size corr 0) (seq 0 (ncols corr))))
    by (rewrite length_map, length_seq; exact Hp).
  rewrite (map_nth (fun p => map (masked win_size corr p) (seq 0 (ncols corr)))
             (seq 0 (shape0 corr)) 0 p).
  rewrite seq_nth by exact Hp. reflexivity.
Qed.

Lemma nth_masked_row (win_size : Z) (corr : ndarray fval) (p q : nat) :
  q < ncols corr ->
  nth q (map (masked win_size corr p) (seq 0 (ncols corr))) NaN
  = masked win_size corr p q.
Proof.
  intros Hq.
  rewrite (nth_indep _ NaN (masked win_size corr p 0))
    by (rewrite length_map, length_seq; exact Hq).
  rewrite (map_nth (masked win_size corr p) (seq 0 (ncols corr)) 0 q).
  rewrite seq_nth by exact Hq. reflexivity.
Qed.

Section Entries.

Context {F : Type} {CF : Collaborators F}.

Lemma correlate_entry (X Y : list (list F)) (p q : nat) :
  p < length X -> q < length Y ->
  entry NaN (correlate X Y) p q = pearson (nth p X []) (nth q Y []).
Proof.
  intros Hp Hq. unfold entry, correlate. simpl.
  rewrite (nth_indep _ [] (map (pearson []) Y)) by (rewrite length_map; exact Hp).
  rewrite (map_nth (fun x => map (pearson x) Y) X [] p).
  rewrite (nth_indep _ NaN (pearson (nth p X []) []))
    by (rewrite length_map; exact Hq).
  apply (map_nth (pearson (nth p X [])) Y [] q).
Qed.

End Entries.

Section Accuracy.

Context {F : Type} {SF : Scalar F} {CF : Collaborators F}.

Lemma shapes_admit (D T W : nat) (data : list (ndarray F)) :
  Forall (has_shape D T) data -> W <= T ->
  Forall (admits D W (T - W)) data.
Proof.
  intros H HW. eapply Forall_impl; [|exact H].
  intros d Hd. apply has_shape_admits; assumption.
Qed.

Lemma masked_shape (D W ns : nat) (win_size : Z) (data : list (ndarray F))
    (d : ndarray F) :
  Forall (admits D W ns) data ->
  has_shape ns ns
    (mask_pure win_size
       (correlation_matrix (group_sum D W ns data) (segment_matrix W ns d))).
Proof.
  intros Hadm. apply mask_pure_shape, correlation_matrix_shape.
  - apply (group_sum_shape D W ns data Hadm).
  - reflexivity.
Qed.

(** C3 (classification and scoring).  On at least one subject, all of one
    shape [D] by [T] with [0 < D], and a window [0 < W < T], the function
    returns one accuracy per subject, and for the subject at position
    [i], with [M] the masked correlation matrix the loop body computes
    from the accumulated sum and the subject's segment matrix: [argmax]
    along the rows of [M] returns, for each row [p], the position of the
    first greatest entry of that row (no entry ranks above it, every entry
    before it ranks strictly below), and the accuracy returned at
    position [i] is the number of rows [p] whose prediction is [p],
    divided by [nseg]. *)
Theorem classification_and_scoring (D T W : nat) (data : list (ndarray F)) :
  data <> [] -> Forall (has_shape D T) data -> 0 < D -> 0 < W -> W < T ->
  let ns := T - W in
  let nseg := (Z.of_nat T - Z.of_nat W)%Z in
  exists G accuracy,
    (trn0 <- np_zeros (Z.of_nat D * Z.of_nat W) nseg ;;
     accumulate data D nseg (Z.of_nat W) trn0) = Ok G
    /\ time_segment_matching data (Z.of_nat W) = Ok accuracy
    /\ length accuracy = length data
    /\ forall i d, nth_error data i = Some d ->
         exists tst M max_idx,
           (tst0 <- np_zeros (Z.of_nat D * Z.of_nat W) nseg ;;
            fill_segments assign data i D nseg (Z.of_nat W) tst0) = Ok tst
           /\ masked_correlation G tst nseg (Z.of_nat W) = Ok M
           /\ np_argmax_axis1 M = Ok max_idx
           /\ length max_idx = ns
           /\ (forall p, p < ns ->
                 first_max (nth p (rows M) []) (nth p max_idx 0))
           /\ nth_error accuracy i
              = Some (Qmake
                        (Z.of_nat
                           (length (filter (fun p => nth p max_idx 0 =? p)
                                           (seq 0 ns))))
                        (Pos.of_nat ns)).
Proof.
  intros Hne Hshape HD HW0 HW ns nseg.
  assert (Hadm : Forall (admits D W ns) data)
    by (apply shapes_admit; [exact Hshape | lia]).
  assert (Hns : 0 < ns) by (unfold ns; lia).
  assert (Hnseg : nseg = Z.of_nat ns) by (unfold nseg, ns; lia).
  rewrite Hnseg.
  replace (Z.of_nat D * Z.of_nat W)%Z with (Z.of_nat (D * W)) by lia.
  rewrite np_zeros_nat. cbn [bind].
  set (G := group_sum D W ns data).
  destruct (group_sum_shape D W ns data Hadm) as [HGr HGc]. fold G in HGr, HGc.
  exists G, (map (subject_accuracy (Z.of_nat W) W ns G) data).
  split; [apply accumulate_ok; exact Hadm|].
  split.
  { destruct data as [|d0 rest]; [contradiction|].
    assert (H0 : has_shape D T d0) by (inversion Hshape; assumption).
    destruct H0 as (_ & HT0 & _).
    apply (run_ok D W ns d0 rest Hadm); unfold ns; lia. }
  split; [apply length_map|].
  intros i d Hi.
  assert (Hd : admits D W ns d).
  { rewrite Forall_forall in Hadm. apply Hadm. eapply nth_error_In; eassumption. }
  assert (Hget : getitem data i = Ok d) by (unfold getitem; rewrite Hi; reflexivity).
  set (Sg := segment_matrix W ns d).
  set (M := mask_pure (Z.of_nat W) (correlation_matrix G Sg)).
  pose proof (correlation_matrix_shape ns G Sg HGc eq_refl) as Hcorr.
  pose proof (masked_shape D W ns (Z.of_nat W) data d Hadm) as HM.
  fold G Sg M in HM. destruct HM as (HMr & HMc & HMwf).
  exists Sg, M, (map argmax_row (rows M)).
  split; [apply tst_data_ok; assumption|].
  split.
  { unfold masked_correlation.
    rewrite (compute_correlation_ok ns (D * W)); auto; try nia.
    - cbn [bind]. apply (mask_loop_pure ns _ _ Hcorr).
    - unfold Sg. rewrite segment_matrix_length.
      destruct Hd as (_ & Hd0 & _). congruence. }
  split; [|split; [|split]].
  - unfold np_argmax_axis1. destruct (Nat.eqb_spec (ncols M) 0); [lia | reflexivity].
  - rewrite length_map. exact HMr.
  - intros p Hp. change 0 with (argmax_row []). rewrite map_nth.
    apply argmax_row_spec.
    assert (Hlen : length (nth p (rows M) []) = ns).
    { unfold wf in HMwf. rewrite Forall_forall in HMwf. rewrite <- HMc.
      apply HMwf, nth_In. unfold shape0 in HMr. lia. }
    intros E. rewrite E in Hlen. simpl in Hlen. lia.
  - rewrite nth_error_map, Hi. cbn [option_map].
    unfold subject_accuracy. fold Sg M. unfold hits.
    do 4 f_equal. apply filter_ext. intros p.
    change 0 with (argmax_row []). rewrite map_nth. reflexivity.
Qed.

Lemma subject_accuracy_bounds (win_size : Z) (W ns : nat) (trn d : ndarray F) :
  0 < ns -> (0 <= subject_accuracy win_size W ns trn d <= 1)%Q.
Proof.
  intros Hns. unfold subject_accuracy.
  apply ratio_bounds; [exact Hns | apply hits_le].
Qed.

(** C9 (result bounds).  On [N >= 1] subjects of one shape [D] by [T]
    with [0 < D], and a window [0 < W < T], the run returns a vector of
    [N] accuracies, each between 0 and 1. *)
Theorem result_bounds (D T W : nat) (data : list (ndarray F)) :
  data <> [] -> Forall (has_shape D T) data -> 0 < D -> 0 < W -> W < T ->
  exists accuracy,
    time_segment_matching data (Z.of_nat W) = Ok accuracy
    /\ length accuracy = length data
    /\ Forall (fun a => (0 <= a <= 1)%Q) accuracy.
Proof.
  intros Hne Hshape HD HW0 HW.
  destruct data as [|d0 rest]; [congruence|].
  assert (Hadm : Forall (admits D W (T - W)) (d0 :: rest))
    by (apply shapes_admit; [exact Hshape | lia]).
  assert (HT : ncols d0 = W + (T - W)).
  { inversion Hshape as [|? ? (_ & Hc & _) _]; subst. lia. }
  eexists. split; [apply (run_ok D W (T - W) d0 rest Hadm HT); lia|].
  split; [apply length_map|].
  apply Forall_map, Forall_forall. intros d _.
  apply subject_accuracy_bounds. lia.
Qed.

(** C10 (degenerate windows).  On [N >= 1] subjects of one shape [D] by [T]
    with [0 < D] and [0 < nseg = T - W <= W], and a correlation primitive
    that never
    returns [-inf]: in every subject's masked correlation matrix all
    off-diagonal entries are [-inf], the prediction for every row is its
    own index, and every accuracy returned is 1. *)
Theorem implicit_degeneracy (D T W : nat) (data : list (ndarray F)) :
  data <> [] -> Forall (has_shape D T) data -> 0 < D ->
  W < T -> T - W <= W ->
  (forall x y, pearson x y <> NegInf) ->
  let ns := T - W in
  exists accuracy,
    time_segment_matching data (Z.of_nat W) = Ok accuracy
    /\ length accuracy = length data
    /\ Forall (fun a => (a == 1)%Q) accuracy
    /\ forall d, In d data ->
         let M := mask_pure (Z.of_nat W)
                    (correlation_matrix (group_sum D W ns data)
                                        (segment_matrix W ns d)) in
         forall p, p < ns ->
           (forall q, q < ns -> q <> p -> entry NaN M p q = NegInf)
           /\ argmax_row (nth p (rows M) []) = p.
Proof.
  intros Hne Hshape HD HW Hdeg Hpearson ns.
  destruct data as [|d0 rest]; [congruence|].
  set (data := d0 :: rest) in *.
  assert (Hadm : Forall (admits D W ns) data)
    by (apply shapes_admit; [exact Hshape | lia]).
  assert (HT : ncols d0 = W + ns).
  { inversion Hshape as [|? ? (_ & Hc & _) _]; subst. unfold ns. lia. }
  assert (Hns : 0 < ns) by (unfold ns; lia).
  assert (Hrows : forall d, In d data ->
            let M := mask_pure (Z.of_nat W)
                       (correlation_matrix (group_sum D W ns data)
                                           (segment_matrix W ns d)) in
            forall p, p < ns ->
              (forall q, q < ns -> q <> p -> entry NaN M p q = NegInf)
              /\ argmax_row (nth p (rows M) []) = p).
  { intros d Hd M p Hp.
    destruct (group_sum_shape D W ns data Hadm) as [_ HGc].
    pose proof (correlation_matrix_shape ns (group_sum D W ns data)
                  (segment_matrix W ns d) HGc eq_refl) as (Hcr & Hcc & _).
    assert (Hoff : forall q, q < ns -> q <> p ->
              masked (Z.of_nat W)
                (correlation_matrix (group_sum D W ns data)
                                    (segment_matrix W ns d)) p q = NegInf).
    { intros q Hq Hqp. unfold masked.
      assert (Ho : overlaps (Z.of_nat W) p q = true).
      { apply overlaps_iff. unfold ns in *. split; lia. }
      rewrite Ho. reflexivity. }
    split.
    - intros q Hq Hqp. unfold M. rewrite mask_pure_entry by lia.
      apply Hoff; assumption.
    - unfold M. rewrite mask_pure_row by lia.
      apply argmax_row_peak.
      + rewrite length_map, length_seq, Hcc. exact Hp.
      + rewrite nth_masked_row by lia.
        unfold masked, overlaps. rewrite Nat.eqb_refl, andb_false_r.
        unfold correlation_matrix. rewrite correlate_entry.
        * apply Hpearson.
        * unfold correlation_matrix, correlate, shape0 in Hcr.
          cbn [rows] in Hcr. rewrite length_map in Hcr. lia.
        * unfold correlation_matrix, correlate in Hcc.
          cbn [ncols] in Hcc. lia.
      + intros q Hq Hqp. rewrite length_map, length_seq, Hcc in Hq.
        rewrite nth_masked_row by lia.
        apply Hoff; assumption. }
  assert (HW0 : 0 < W) by (unfold ns in *; lia).
  eexists. split; [apply (run_ok D W ns d0 rest Hadm HT Hns HD HW0)|].
  split; [apply length_map|]. split; [|exact Hrows].
  apply Forall_map, Forall_forall. intros d Hd.
  unfold subject_accuracy.
  assert (Hhits : hits ns (mask_pure (Z.of_nat W)
                    (correlation_matrix (group_sum D W ns (d0 :: rest))
                                        (segment_matrix W ns d))) = ns).
  { unfold hits. rewrite filter_all; [apply length_seq|].
    intros p Hp. apply in_seq in Hp. apply Nat.eqb_eq.
    apply (Hrows d Hd p). lia. }
  rewrite Hhits. apply ratio_one. exact Hns.
Qed.

End Accuracy.

(** * Runs on inputs the specification calls invalid *)

Section Invalid.

Context {F : Type} {SF : Scalar F} {CF : Collaborators F}.

Lemma np_zeros_ok (r c : Z) :
  (0 <= r)%Z -> (0 <= c)%Z ->
  np_zeros r c = Ok (zeros (Z.to_nat r) (Z.to_nat c)).
Proof.
  intros Hr Hc. unfold np_zeros, zeros.
  destruct (Z.ltb_spec r 0); [lia|]. destruct (Z.ltb_spec c 0); [lia|].
  reflexivity.
Qed.

Lemma np_zeros_negative (r c : Z) :
  (r < 0 \/ c < 0)%Z -> np_zeros r c = Raise ValueError.
Proof.
  intros H. unfold np_zeros.
  destruct (Z.ltb_spec r 0); [reflexivity|].
  destruct (Z.ltb_spec c 0); [reflexivity | lia].
Qed.

(** The accumulation over any list of valid subject indices keeps the
    shape of the buffer and can only raise [ValueError]. *)
Lemma accumulate_list_inv (data : list (ndarray F)) (D : nat)
    (nseg win_size : Z) (ms : list nat) (trn : ndarray F) :
  Forall (fun m => m < length data) ms ->
  match foldM (fun trn m => fill_segments fadd data m D nseg win_size trn)
              ms trn with
  | Ok b => ncols b = ncols trn /\ shape0 b = shape0 trn
  | Raise e => e = ValueError
  end.
Proof.
  intros Hms.
  apply (foldM_raises (fun e => e = ValueError)
           (fun s => ncols s = ncols trn /\ shape0 s = shape0 trn)); [|auto].
  intros s m (Hc & Hr) Hm. rewrite Forall_forall in Hms.
  pose proof (fill_segments_inv fadd data m D nseg win_size s (Hms m Hm)) as H.
  destruct (fill_segments fadd data m D nseg win_size s); [|exact H].
  destruct H; split; congruence.
Qed.

Lemma np_zeros_Ok_inv (r c : Z) (a : ndarray F) :
  np_zeros r c = Ok a ->
  (0 <= r)%Z /\ (0 <= c)%Z /\ ncols a = Z.to_nat c /\ shape0 a = Z.to_nat r.
Proof.
  unfold np_zeros.
  destruct (Z.ltb_spec r 0) as [Hr|Hr]; [discriminate|].
  destruct (Z.ltb_spec c 0) as [Hc|Hc]; [discriminate|].
  cbn [orb]. intros E. inversion E. unfold shape0. cbn [ncols rows].
  rewrite repeat_length. auto.
Qed.

(** An iteration of the leave-one-out loop fails with [IndexError] or
    [ValueError] only: the division by [nseg] is not reached when [nseg]
    is zero, since the correlation routine has failed by then. *)
Lemma analyze_subject_exceptions (data : list (ndarray F)) (D : nat)
    (nseg win_size : Z) (trn : ndarray F) (accuracy : list Q) (i : nat)
    (e : exn) :
  i < length data ->
  analyze_subject data D nseg win_size trn accuracy i = Raise e ->
  e = IndexError \/ e = ValueError.
Proof.
  intros Hi. unfold analyze_subject. intros H.
  apply bind_Raise_inv in H as [H | (tst0 & H0 & H)];
    [apply np_zeros_raises in H; auto|].
  apply np_zeros_Ok_inv in H0 as (_ & Hn & Hc0 & _).
  apply bind_Raise_inv in H as [H | (tst & Ht & H)].
  { pose proof (fill_segments_inv assign data i D nseg win_size tst0 Hi) as Hf.
    rewrite H in Hf. auto. }
  pose proof (fill_segments_inv assign data i D nseg win_size tst0 Hi) as Hf.
  rewrite Ht in Hf. destruct Hf as [Hc _].
  apply bind_Raise_inv in H as [H | (corr & Hcorr & H)];
    [eapply masked_correlation_raises; eassumption|].
  assert (Hnz : nseg <> 0%Z).
  { unfold masked_correlation in Hcorr.
    apply bind_Ok_inv in Hcorr as (c0 & Hcc & _).
    unfold compute_correlation in Hcc.
    destruct (negb _); [discriminate|].
    rewrite standardize_T_shape0 in Hcc.
    destruct (Nat.eqb_spec (ncols tst) 0) as [E|E]; [discriminate|].
    intros ->. apply E. rewrite Hc, Hc0. reflexivity. }
  apply bind_Raise_inv in H as [H | (acc & _ & H)].
  - unfold score in H.
    apply bind_Raise_inv in H as [H | (mi & _ & H)].
    + unfold np_argmax_axis1 in H.
      destruct (ncols corr =? 0); [inversion H; auto | discriminate].
    + unfold py_div in H.
      destruct (Z.eqb_spec nseg 0); [contradiction | discriminate].
  - apply setitem1_raises in H. auto.
Qed.

(** With no segment at all ([nseg = 0]) an iteration of the leave-one-out
    loop fails: in the correlation routine at the latest. *)
Lemma analyze_subject_no_segment (data : list (ndarray F)) (D : nat)
    (win_size : Z) (trn : ndarray F) (accuracy : list Q) (i : nat) :
  i < length data ->
  exists e, analyze_subject data D 0 win_size trn accuracy i = Raise e
            /\ (e = IndexError \/ e = ValueError).
Proof.
  intros Hi.
  destruct (analyze_subject data D 0 win_size trn accuracy i) as [a|e] eqn:E.
  - exfalso. unfold analyze_subject in E.
    apply bind_Ok_inv in E as (tst0 & H0 & E).
    apply np_zeros_Ok_inv in H0 as (_ & _ & Hc0 & _).
    apply bind_Ok_inv in E as (tst & Ht & E).
    pose proof (fill_segments_inv assign data i D 0 win_size tst0 Hi) as Hf.
    rewrite Ht in Hf. destruct Hf as [Hc _].
    apply bind_Ok_inv in E as (corr & Hcorr & _).
    unfold masked_correlation in Hcorr.
    apply bind_Ok_inv in Hcorr as (c0 & Hcc & _).
    unfold compute_correlation in Hcc.
    destruct (negb _); [discriminate|].
    rewrite standardize_T_shape0, Hc, Hc0 in Hcc. discriminate.
  - exists e. split; [reflexivity|].
    eapply analyze_subject_exceptions; eassumption.
Qed.

(** A window longer than the series fails in [np.zeros]. *)
Lemma run_window_too_large (d0 : ndarray F) (rest : list (ndarray F))
    (win_size : Z) :
  (Z.of_nat (ncols d0) < win_size)%Z ->
  time_segment_matching (d0 :: rest) win_size = Raise ValueError.
Proof.
  intros Hwin. unfold time_segment_matching.
  change (getitem (d0 :: rest) 0) with (Ok d0). cbn [bind]. unfold shape1.
  rewrite np_zeros_negative by lia. reflexivity.
Qed.

(** A window as long as the series leaves no segment, and the run fails. *)
Lemma run_window_whole (d0 : ndarray F) (rest : list (ndarray F))
    (win_size : Z) :
  Z.of_nat (ncols d0) = win_size ->
  time_segment_matching (d0 :: rest) win_size = Raise ValueError
  \/ time_segment_matching (d0 :: rest) win_size = Raise IndexError.
Proof.
  intros Hwin. unfold time_segment_matching.
  change (getitem (d0 :: rest) 0) with (Ok d0). cbn [bind]. unfold shape1.
  replace (Z.of_nat (ncols d0) - win_size)%Z with 0%Z by lia.
  rewrite np_zeros_ok by lia. cbn [bind].
  pose proof (accumulate_inv (d0 :: rest) (shape0 d0) 0 win_size
                (zeros (Z.to_nat (Z.of_nat (shape0 d0) * win_size)) (Z.to_nat 0)))
    as Ha.
  destruct (accumulate (d0 :: rest) (shape0 d0) 0 win_size _) as [trn|e];
    [|subst; left; reflexivity].
  cbn [bind]. unfold range. rewrite Nat2Z.id. cbn [length seq foldM].
  destruct (analyze_subject_no_segment (d0 :: rest) (shape0 d0) win_size trn
              (repeat 0%Q (S (length rest))) 0) as (e & -> & [-> | ->]);
    [simpl; lia | right; reflexivity | left; reflexivity].
Qed.



(** A subject whose first block cannot be broadcast stops the
    accumulation. *)
Lemma fill_segments_unfit (data : list (ndarray F)) (k : nat) (d : ndarray F)
    (D W ns : nat) (trn : ndarray F) :
  getitem data k = Ok d -> 0 < W ->
  ncols trn = ns -> shape0 trn = D * W ->
  fits (shape0 d) D && fits (Nat.min ns (ncols d)) ns = false ->
  fill_segments fadd data k D (Z.of_nat ns) (Z.of_nat W) trn = Raise ValueError.
Proof.
  intros Hget HW Hc Hr Hfit. unfold fill_segments, range. rewrite Nat2Z.id.
  destruct W as [|W]; [lia|]. cbn [seq foldM]. rewrite Hget. cbn [bind].
  unfold update_rows.
  assert (Hview : length (py_slice (Z.of_nat 0 * Z.of_nat D)
                            ((Z.of_nat 0 + 1) * Z.of_nat D) (rows trn)) = D).
  { replace (Z.of_nat 0 * Z.of_nat D)%Z with (Z.of_nat 0) by lia.
    replace ((Z.of_nat 0 + 1) * Z.of_nat D)%Z with (Z.of_nat D) by lia.
    rewrite py_slice_nat, length_firstn, length_skipn.
    unfold shape0 in Hr. nia. }
  rewrite Hview. unfold broadcast_to.
  assert (Hs : shape0 (slice_cols d (Z.of_nat 0) (Z.of_nat 0 + Z.of_nat ns))
               = shape0 d) by (unfold shape0, slice_cols; simpl; apply length_map).
  assert (Hn : ncols (slice_cols d (Z.of_nat 0) (Z.of_nat 0 + Z.of_nat ns))
               = Nat.min ns (ncols d)).
  { unfold slice_cols. simpl ncols.
    replace (Z.of_nat 0 + Z.of_nat ns)%Z with (Z.of_nat ns) by lia.
    change (slice_len (ncols d) (Z.of_nat 0) (Z.of_nat ns)
            = Nat.min ns (ncols d)).
    rewrite slice_len_nat. lia. }
  rewrite Hs, Hn, Hc, Hfit. reflexivity.
Qed.

Lemma accumulate_unfit (data : list (ndarray F)) (k : nat) (d : ndarray F)
    (D W ns : nat) (trn : ndarray F) :
  getitem data k = Ok d -> 0 < W ->
  ncols trn = ns -> shape0 trn = D * W ->
  fits (shape0 d) D && fits (Nat.min ns (ncols d)) ns = false ->
  accumulate data D (Z.of_nat ns) (Z.of_nat W) trn = Raise ValueError.
Proof.
  intros Hget HW Hc Hr Hfit. unfold accumulate, range. rewrite Nat2Z.id.
  assert (Hk : k < length data).
  { unfold getitem in Hget. destruct (nth_error data k) eqn:E; [|discriminate].
    apply nth_error_Some. congruence. }
  replace (length data) with (k + S (length data - S k)) by lia.
  rewrite seq_app, foldM_app. simpl seq.
  pose proof (accumulate_list_inv data D (Z.of_nat ns) (Z.of_nat W)
                (seq 0 k) trn) as Hpre.
  destruct (foldM _ (seq 0 k) trn) as [s|e].
  - cbn [bind foldM]. destruct Hpre as [Hsc Hsr].
    { apply Forall_forall. intros m Hm. apply in_seq in Hm. lia. }
    rewrite (fill_segments_unfit data k d D W ns s); auto; congruence.
  - cbn [bind]. rewrite Hpre; [reflexivity|].
    apply Forall_forall. intros m Hm. apply in_seq in Hm. lia.
Qed.

Lemma run_unfit (d0 : ndarray F) (rest : list (ndarray F)) (W ns : nat)
    (d : ndarray F) :
  0 < W -> ncols d0 = W + ns -> In d (d0 :: rest) ->
  fits (shape0 d) (shape0 d0) && fits (Nat.min ns (ncols d)) ns = false ->
  time_segment_matching (d0 :: rest) (Z.of_nat W) = Raise ValueError.
Proof.
  intros HW HT Hd Hfit. unfold time_segment_matching.
  change (getitem (d0 :: rest) 0) with (Ok d0). cbn [bind]. unfold shape1.
  rewrite HT.
  replace (Z.of_nat (W + ns) - Z.of_nat W)%Z with (Z.of_nat ns) by lia.
  replace (Z.of_nat (shape0 d0) * Z.of_nat W)%Z
    with (Z.of_nat (shape0 d0 * W)) by lia.
  rewrite np_zeros_nat. cbn [bind].
  apply In_nth_error in Hd as (k & Hk).
  rewrite (accumulate_unfit (d0 :: rest) k d (shape0 d0) W ns); auto.
  - unfold getitem. rewrite Hk. reflexivity.
  - apply (zeros_shape (shape0 d0 * W) ns).
Qed.

(** Columns beyond the first [W + ns] are never read. *)
Lemma seg_block_truncate (T ns w : nat) (d : ndarray F) :
  w + ns <= T -> seg_block (truncate_cols T d) ns w = seg_block d ns w.
Proof.
  intros Hw. unfold seg_block, truncate_cols. simpl. rewrite map_map.
  apply map_ext. intros r.
  rewrite skipn_firstn_comm, firstn_firstn. f_equal. lia.
Qed.

Lemma segment_matrix_truncate (T W ns : nat) (d : ndarray F) :
  W + ns <= T ->
  segment_matrix W ns (truncate_cols T d) = segment_matrix W ns d.
Proof.
  intros HW. unfold segment_matrix. do 2 f_equal.
  apply map_ext_in. intros w Hw. apply in_seq in Hw.
  apply seg_block_truncate. lia.
Qed.

Lemma truncate_admits (D W ns : nat) (d : ndarray F) :
  admits D W ns d -> admits D W ns (truncate_cols (W + ns) d).
Proof.
  intros (Hwf & HD & HT). unfold admits, wf, shape0, truncate_cols in *.
  simpl. rewrite length_map. repeat split; [|exact HD|lia].
  apply Forall_map. eapply Forall_impl; [|exact Hwf]. simpl.
  intros r Hr. rewrite length_firstn. lia.
Qed.

Lemma run_truncate (D W ns : nat) (d0 : ndarray F) (rest : list (ndarray F)) :
  Forall (admits D W ns) (d0 :: rest) -> ncols d0 = W + ns ->
  0 < ns -> 0 < D -> 0 < W ->
  time_segment_matching (d0 :: rest) (Z.of_nat W)
  = time_segment_matching (map (truncate_cols (W + ns)) (d0 :: rest))
      (Z.of_nat W).
Proof.
  intros Hadm HT Hns HD HW.
  rewrite (run_ok D W ns d0 rest Hadm HT Hns HD HW).
  assert (HG : group_sum D W ns (map (truncate_cols (W + ns)) (d0 :: rest))
               = group_sum D W ns (d0 :: rest)).
  { unfold group_sum. f_equal. rewrite map_map. apply map_ext. intros d.
    apply segment_matrix_truncate. lia. }
  assert (Hadm' : Forall (admits D W ns)
                    (map (truncate_cols (W + ns)) (d0 :: rest))).
  { apply Forall_map. eapply Forall_impl; [|exact Hadm].
    intros d. apply truncate_admits. }
  assert (HT' : ncols (truncate_cols (W + ns) d0) = W + ns) by (simpl; lia).
  pose proof (run_ok D W ns (truncate_cols (W + ns) d0)
                (map (truncate_cols (W + ns)) rest) Hadm' HT' Hns HD HW) as Hrun.
  change (truncate_cols (W + ns) d0 :: map (truncate_cols (W + ns)) rest)
    with (map (truncate_cols (W + ns)) (d0 :: rest)) in Hrun.
  rewrite Hrun, HG, map_map. f_equal. apply map_ext. intros d.
  unfold subject_accuracy. rewrite segment_matrix_truncate by lia.
  reflexivity.
Qed.

(** [IndexError] and [ValueError] are the only exceptions of a run. *)
Lemma run_raises_index_or_value (data : list (ndarray F)) (win_size : Z)
    (e : exn) :
  time_segment_matching data win_size = Raise e ->
  e = IndexError \/ e = ValueError.
Proof.
  unfold time_segment_matching. intros H.
  apply bind_Raise_inv in H as [H | (d0 & _ & H)];
    [apply getitem_raises in H; auto|].
  apply bind_Raise_inv in H as [H | (trn0 & _ & H)];
    [apply np_zeros_raises in H; auto|].
  apply bind_Raise_inv in H as [H | (trn & _ & H)].
  { match type of H with accumulate ?d ?D ?n ?w ?t = _ =>
      pose proof (accumulate_inv d D n w t) as Ha end.
    rewrite H in Ha. auto. }
  revert H.
  apply (foldM_raise_inv (fun e => e = IndexError \/ e = ValueError)).
  intros s i e' Hi.
  unfold range in Hi. rewrite Nat2Z.id in Hi. apply in_seq in Hi.
  apply analyze_subject_exceptions. lia.
Qed.

End Invalid.

Section ErrorClaims.

Context {F : Type} {SF : Scalar F} {CF : Collaborators F}.


(** C7 (shape validation), as the code has it.  The function validates
    nothing and never fails with [ShapeMismatchError]; [D] and [T] are
    read from [data[0]].  With a window [W > 0], a subject whose first
    block [d[:, 0:nseg]] cannot be broadcast to [D] by [nseg] makes the
    accumulation of the group sum fail with NumPy's [ValueError].  When
    [W > 0], [D > 0], [nseg > 0] and every subject has [D] rows and at
    least [T] time points, the run succeeds with one accuracy per subject
    and equals the run on the subjects cut to their first [T] time
    points. *)
Theorem shape_validation_absent (data : list (ndarray F)) (win_size : Z) :
  time_segment_matching data win_size <> Raise ShapeMismatchError
  /\ forall d0 rest W ns,
       data = d0 :: rest -> win_size = Z.of_nat W -> shape1 d0 = W + ns ->
       0 < W ->
       (forall d, In d data ->
          fits (shape0 d) (shape0 d0) && fits (Nat.min ns (shape1 d)) ns = false ->
          time_segment_matching data win_size = Raise ValueError)
       /\ (0 < shape0 d0 -> 0 < ns -> Forall (admits (shape0 d0) W ns) data ->
           time_segment_matching data win_size
           = time_segment_matching (map (truncate_cols (W + ns)) data) win_size
           /\ exists accuracy,
                time_segment_matching data win_size = Ok accuracy
                /\ length accuracy = length data).
Proof.
  split.
  - intros H. apply run_raises_builtin in H. discriminate.
  - intros d0 rest W ns -> -> HT HW. split.
    + intros d Hd Hfit. apply (run_unfit d0 rest W ns d); assumption.
    + intros HD Hns Hadm. split.
      * apply (run_truncate (shape0 d0) W ns d0 rest); assumption.
      * eexists. split;
          [apply (run_ok (shape0 d0) W ns d0 rest Hadm HT Hns HD HW)
          | apply length_map].
Qed.

(** C8 (empty input), as the code has it.  With no subject the function
    fails at [data[0]] with Python's [IndexError], whatever the window,
    and [EmptyInputError] is never raised. *)
Theorem empty_input_index_error (data : list (ndarray F)) (win_size : Z) :
  (data = [] -> time_segment_matching data win_size = Raise IndexError)
  /\ time_segment_matching data win_size <> Raise EmptyInputError.
Proof.
  split; [intros ->; reflexivity|].
  intros H. apply run_raises_builtin in H. discriminate.
Qed.

End ErrorClaims.

(** * Concrete runs *)

Lemma three_subjects_shape : Forall (has_shape 2 4) three_subjects.
Proof. repeat constructor. Qed.

Lemma example_corr_shape : has_shape 3 3 example_corr.
Proof. repeat constructor. Qed.

(** Ties go to the lowest index: the last row has its greatest value at
    positions 0 and 2. *)
Example argmax_tie : np_argmax_axis1 example_corr = Ok [0; 2; 0].
Proof. reflexivity. Qed.

Lemma Z_pearson_finite (x y : list Z) : pearson x y <> NegInf.
Proof. discriminate. Qed.

(** C1 at three subjects with two features, four time points and a
    window of one. *)
Lemma leave_one_out_correction_witness :
  three_subjects <> [] /\ Forall (has_shape 2 4) three_subjects
  /\ 0 < 2 /\ 0 < 1 /\ 1 < 4
  /\ (let ns := 4 - 1 in
      let nseg := (Z.of_nat 4 - Z.of_nat 1)%Z in
      let G := fold_left nd_add (map (segment_matrix 1 ns) three_subjects)
                 (zeros (2 * 1) ns) in
      (trn0 <- np_zeros (Z.of_nat 2 * Z.of_nat 1) nseg ;;
       accumulate three_subjects 2 nseg (Z.of_nat 1) trn0) = Ok G
      /\ (forall i d, nth_error three_subjects i = Some d ->
            (tst0 <- np_zeros (Z.of_nat 2 * Z.of_nat 1) nseg ;;
             fill_segments assign three_subjects i 2 nseg (Z.of_nat 1) tst0)
            = Ok (segment_matrix 1 ns d))
      /\ time_segment_matching three_subjects (Z.of_nat 1)
         = Ok (map (fun d =>
                      let Sg := segment_matrix 1 ns d in
                      Qmake
                        (Z.of_nat
                           (hits ns
                              (mask_pure (Z.of_nat 1)
                                 (correlate (rows (standardize_T Sg))
                                    (rows (standardize_T (nd_sub G Sg)))))))
                        (Pos.of_nat ns))
                   three_subjects)
      /\ (forall d p q, In d three_subjects -> p < 2 * 1 -> q < ns ->
            entry fzero (nd_sub G (segment_matrix 1 ns d)) p q
            = fsub (entry fzero G p q)
                   (entry fzero (segment_matrix 1 ns d) p q))).
Proof.
  assert (Hne : three_subjects <> []) by discriminate.
  split; [exact Hne|]. split; [exact three_subjects_shape|].
  split; [lia|]. split; [lia|]. split; [lia|].
  exact (leave_one_out_correction 2 4 1 three_subjects Hne
           three_subjects_shape ltac:(lia) ltac:(lia) ltac:(lia)).
Defined.

(** C1: in double precision the difference [GroupSum - SegmentMatrix(i)]
    need not be the sum of the other subjects' segment matrices.  With
    the two subjects [1, 2, 3] and [1e16, 0, 5] and a window of one, the
    accumulated sum is [1e16, 2], as [1 + 1e16] rounds to [1e16]; the
    template for the second subject is [0, 2], while the first subject's
    segment matrix is [1, 2]. *)
Lemma leave_one_out_counterexample :
  let G := mk_ndarray 2 [[1e16; 2]%float] in
  let S1 := segment_matrix 1 2 (mk_ndarray 3 [[1e16; 0; 5]%float]) in
  Forall (has_shape 1 3) float_subjects
  /\ nth_error float_subjects 1 = Some (mk_ndarray 3 [[1e16; 0; 5]%float])
  /\ (trn0 <- np_zeros 1 2 ;; accumulate float_subjects 1 2 1 trn0) = Ok G
  /\ G = group_sum 1 1 2 float_subjects
  /\ corrected_template G S1 = mk_ndarray 2 [[0; 2]%float]
  /\ group_sum 1 1 2 (remove_nth 1 float_subjects) = mk_ndarray 2 [[1; 2]%float]
  /\ corrected_template G S1 <> group_sum 1 1 2 (remove_nth 1 float_subjects).
Proof.
  intros G S1.
  assert (HA : corrected_template G S1 = mk_ndarray 2 [[0; 2]%float])
    by (vm_compute; reflexivity).
  assert (HB : group_sum 1 1 2 (remove_nth 1 float_subjects)
               = mk_ndarray 2 [[1; 2]%float]) by (vm_compute; reflexivity).
  split; [repeat constructor|]. split; [reflexivity|].
  split; [vm_compute; reflexivity|]. split; [vm_compute; reflexivity|].
  split; [exact HA|]. split; [exact HB|].
  rewrite HA, HB. intros E.
  apply (f_equal (fun a => match rows a with
                           | (x :: _) :: _ => PrimFloat.eqb x 1
                           | _ => false
                           end)) in E.
  vm_compute in E. discriminate.
Qed.

(** C4 at the first of the three subjects. *)
Lemma segment_construction_witness :
  has_shape 2 4 (mk_ndarray 4 [[1; 2; 0; 1]; [0; 1; 3; 1]]%Z) /\ 2 < 4
  /\ getitem three_subjects 0 = Ok (mk_ndarray 4 [[1; 2; 0; 1]; [0; 1; 3; 1]]%Z)
  /\ exists tst,
       (tst0 <- np_zeros (Z.of_nat 2 * Z.of_nat 2) (Z.of_nat 4 - Z.of_nat 2) ;;
        fill_segments assign three_subjects 0 2 (Z.of_nat 4 - Z.of_nat 2)
          (Z.of_nat 2) tst0) = Ok tst
       /\ has_shape (2 * 2) (4 - 2) tst.
Proof.
  assert (Hd : has_shape 2 4 (mk_ndarray 4 [[1; 2; 0; 1]; [0; 1; 3; 1]]%Z))
    by (repeat constructor).
  split; [exact Hd|]. split; [lia|]. split; [reflexivity|].
  destruct (segment_construction 2 4 2 three_subjects 0 _ Hd ltac:(lia) eq_refl)
    as (tst & Hrun & Hshape & _).
  exists tst. split; assumption.
Defined.

(** C2 at a three by three matrix and a window of two. *)
Lemma exclusion_masking_witness :
  has_shape 3 3 example_corr
  /\ exists m, mask_loop example_corr (Z.of_nat 3) 2 = Ok m
       /\ entry NaN m 0 1 = NegInf
       /\ entry NaN m 0 2 = Fin (1 # 2)
       /\ entry NaN m 1 1 = Fin (1 # 4).
Proof.
  split; [exact example_corr_shape|].
  destruct (exclusion_masking 3 2 example_corr example_corr_shape)
    as (m & Hrun & _ & Hent).
  exists m. split; [exact Hrun|].
  destruct (Hent 0 1 ltac:(lia) ltac:(lia)) as (H01 & _ & _).
  destruct (Hent 0 2 ltac:(lia) ltac:(lia)) as (_ & H02 & _).
  destruct (Hent 1 1 ltac:(lia) ltac:(lia)) as (_ & _ & H11).
  split; [apply H01; simpl; lia|].
  split; [rewrite H02; [reflexivity | simpl; lia] | rewrite H11; reflexivity].
Defined.

(** C3 at the three subjects and a window of one. *)
Lemma classification_and_scoring_witness :
  three_subjects <> [] /\ Forall (has_shape 2 4) three_subjects
  /\ 0 < 2 /\ 0 < 1 /\ 1 < 4
  /\ (let ns := 4 - 1 in
      let nseg := (Z.of_nat 4 - Z.of_nat 1)%Z in
      exists G accuracy,
        (trn0 <- np_zeros (Z.of_nat 2 * Z.of_nat 1) nseg ;;
         accumulate three_subjects 2 nseg (Z.of_nat 1) trn0) = Ok G
        /\ time_segment_matching three_subjects (Z.of_nat 1) = Ok accuracy
        /\ length accuracy = length three_subjects
        /\ forall i d, nth_error three_subjects i = Some d ->
             exists tst M max_idx,
               (tst0 <- np_zeros (Z.of_nat 2 * Z.of_nat 1) nseg ;;
                fill_segments assign three_subjects i 2 nseg (Z.of_nat 1) tst0)
               = Ok tst
               /\ masked_correlation G tst nseg (Z.of_nat 1) = Ok M
               /\ np_argmax_axis1 M = Ok max_idx
               /\ length max_idx = ns
               /\ (forall p, p < ns ->
                     first_max (nth p (rows M) []) (nth p max_idx 0))
               /\ nth_error accuracy i
                  = Some (Qmake
                            (Z.of_nat
                               (length (filter (fun p => nth p max_idx 0 =? p)
                                               (seq 0 ns))))
                            (Pos.of_nat ns))).
Proof.
  assert (Hne : three_subjects <> []) by discriminate.
  split; [exact Hne|]. split; [exact three_subjects_shape|].
  split; [lia|]. split; [lia|]. split; [lia|].
  exact (classification_and_scoring 2 4 1 three_subjects Hne
           three_subjects_shape ltac:(lia) ltac:(lia) ltac:(lia)).
Defined.

(** C9 at the three subjects and a window of one. *)
Lemma result_bounds_witness :
  three_subjects <> [] /\ Forall (has_shape 2 4) three_subjects
  /\ 0 < 2 /\ 0 < 1 /\ 1 < 4
  /\ exists accuracy,
       time_segment_matching three_subjects (Z.of_nat 1) = Ok accuracy
       /\ length accuracy = length three_subjects
       /\ Forall (fun a => (0 <= a <= 1)%Q) accuracy.
Proof.
  assert (Hne : three_subjects <> []) by discriminate.
  split; [exact Hne|]. split; [exact three_subjects_shape|].
  split; [lia|]. split; [lia|]. split; [lia|].
  exact (result_bounds 2 4 1 three_subjects Hne three_subjects_shape
           ltac:(lia) ltac:(lia) ltac:(lia)).
Defined.

(** C9: the mean the function reports is computed in double precision
    and can exceed the greatest accuracy.  On three subjects of one
    feature and eleven time points with a window of one, every accuracy
    is [1/10], and the mean of the three is the next double above the
    double for [1/10]. *)
Lemma result_bounds_counterexample :
  flat_subjects <> [] /\ Forall (has_shape 1 11) flat_subjects
  /\ time_segment_matching flat_subjects 1 = Ok [1 # 10; 1 # 10; 1 # 10]%Q
  /\ PrimFloat.ltb (float64_of_ratio (Qlist_max [1 # 10; 1 # 10; 1 # 10]%Q))
                   (np_mean [1 # 10; 1 # 10; 1 # 10]%Q) = true.
Proof.
  split; [discriminate|]. split; [repeat constructor|].
  split; vm_compute; reflexivity.
Qed.

(** C10 at the three subjects and a window of two: two segments, both
    inside each other's exclusion zone. *)
Lemma implicit_degeneracy_witness :
  three_subjects <> [] /\ Forall (has_shape 2 4) three_subjects
  /\ 0 < 2 /\ 2 < 4 /\ 4 - 2 <= 2
  /\ (forall x y : list Z, pearson x y <> NegInf)
  /\ (let ns := 4 - 2 in
      exists accuracy,
        time_segment_matching three_subjects (Z.of_nat 2) = Ok accuracy
        /\ length accuracy = length three_subjects
        /\ Forall (fun a => (a == 1)%Q) accuracy
        /\ forall d, In d three_subjects ->
             let M := mask_pure (Z.of_nat 2)
                        (correlation_matrix (group_sum 2 2 ns three_subjects)
                                            (segment_matrix 2 ns d)) in
             forall p, p < ns ->
               (forall q, q < ns -> q <> p -> entry NaN M p q = NegInf)
               /\ argmax_row (nth p (rows M) []) = p).
Proof.
  assert (Hne : three_subjects <> []) by discriminate.
  split; [exact Hne|]. split; [exact three_subjects_shape|].
  split; [lia|]. split; [lia|]. split; [lia|].
  split; [exact Z_pearson_finite|].
  exact (implicit_degeneracy 2 4 2 three_subjects Hne three_subjects_shape
           ltac:(lia) ltac:(lia) ltac:(lia) Z_pearson_finite).
Defined.



(** C7: subjects with three and with five time points are accepted. *)
Lemma shape_validation_counterexample :
  map shape1 ragged_subjects = [3; 5]
  /\ time_segment_matching ragged_subjects 1 = Ok [1 # 2; 1 # 2]%Q
  /\ time_segment_matching ragged_subjects 1 <> Raise ShapeMismatchError.
Proof.
  split; [reflexivity|]. split; [vm_compute; reflexivity|].
  vm_compute. discriminate.
Qed.

(** C7 at the subjects with three and with five time points and a window
    of one. *)
Lemma shape_validation_absent_witness :
  0 < 1 /\ 0 < 2 /\ Forall (admits 1 1 2) ragged_subjects
  /\ time_segment_matching ragged_subjects (Z.of_nat 1)
     = time_segment_matching (map (truncate_cols (1 + 2)) ragged_subjects)
         (Z.of_nat 1)
  /\ exists accuracy,
       time_segment_matching ragged_subjects (Z.of_nat 1) = Ok accuracy
       /\ length accuracy = length ragged_subjects.
Proof.
  assert (Hadm : Forall (admits 1 1 2) ragged_subjects).
  { repeat constructor; simpl; lia. }
  split; [lia|]. split; [lia|]. split; [exact Hadm|].
  destruct (shape_validation_absent ragged_subjects (Z.of_nat 1)) as [_ H].
  destruct (H _ _ 1 2 eq_refl eq_refl eq_refl ltac:(lia)) as [_ Hlong].
  exact (Hlong ltac:(cbv; lia) ltac:(lia) Hadm).
Defined.

Lemma empty_input_index_error_witness :
  @nil (ndarray Z) = []
  /\ time_segment_matching (@nil (ndarray Z)) 10 = Raise IndexError.
Proof.
  split; [reflexivity|].
  destruct (empty_input_index_error (@nil (ndarray Z)) 10) as [H _].
  apply H. reflexivity.
Defined.

(** C8: the empty input ends in [IndexError], not in [EmptyInputError]. *)
Lemma empty_input_counterexample :
  time_segment_matching (@nil (ndarray Z)) 10 = Raise IndexError
  /\ time_segment_matching (@nil (ndarray Z)) 10 <> Raise EmptyInputError.
Proof. split; [reflexivity | discriminate]. Qed.

(** * Further properties of [time_segment_matching] *)

Section Entrywise.

Context {F : Type} {SF : Scalar F}.

(** Row [w*D + r] of the segment matrix, at column [j], is feature [r] of
    the series at time [w + j]. *)
Lemma segment_matrix_entry (dflt : F) (W ns w r j : nat) (d : ndarray F) :
  w < W -> r < shape0 d -> j < ns ->
  entry dflt (segment_matrix W ns d) (w * shape0 d + r) j
  = entry dflt d r (w + j).
Proof.
  intros Hw Hr Hj. unfold entry.
  assert (Hrow : nth (w * shape0 d + r) (rows (segment_matrix W ns d)) []
                 = firstn ns (skipn w (nth r (rows d) []))).
  { rewrite <- nth_skipn.
    transitivity (nth r (firstn (shape0 d)
                           (skipn (w * shape0 d) (rows (segment_matrix W ns d)))) []).
    - rewrite nth_firstn. apply Nat.ltb_lt in Hr. rewrite Hr. reflexivity.
    - rewrite segment_matrix_block by exact Hw. unfold seg_block.
      rewrite (nth_indep _ [] (firstn ns (skipn w [])))
        by (rewrite length_map; exact Hr).
      apply (map_nth (fun x => firstn ns (skipn w x))). }
  rewrite Hrow, nth_firstn. apply Nat.ltb_lt in Hj. rewrite Hj.
  apply nth_skipn.
Qed.

Lemma nd_add_entry (dflt : F) (r c : nat) (a b : ndarray F) (p q : nat) :
  has_shape r c a -> has_shape r c b -> p < r -> q < c ->
  entry dflt (nd_add a b) p q = fadd (entry dflt a p q) (entry dflt b p q).
Proof.
  intros Ha Hb Hp Hq. unfold entry, nd_add. simpl.
  pose proof (row_length r c a p Ha Hp) as Hla.
  pose proof (row_length r c b p Hb Hp) as Hlb.
  destruct Ha as (Hra & _), Hb as (Hrb & _). unfold shape0 in *.
  rewrite (nth_map2 (map2 fadd) (rows a) (rows b) p [] [] []) by lia.
  apply nth_map2; lia.
Qed.

Lemma nd_add_has_shape (r c : nat) (a b : ndarray F) :
  has_shape r c a -> has_shape r c b -> has_shape r c (nd_add a b).
Proof.
  intros (Hra & Hca & Hwa) (Hrb & Hcb & Hwb).
  destruct (nd_add_shape a b r c Hra Hca Hrb) as [Hr Hc].
  repeat split; auto. apply (nd_add_wf c); assumption.
Qed.

Lemma fold_nd_add_entry (dflt : F) (r c : nat) (l : list (ndarray F))
    (p q : nat) :
  Forall (has_shape r c) l -> p < r -> q < c ->
  forall acc, has_shape r c acc ->
    entry dflt (fold_left nd_add l acc) p q
    = fold_left fadd (map (fun s => entry dflt s p q) l) (entry dflt acc p q).
Proof.
  intros Hl Hp Hq. induction Hl as [|s l Hs _ IH]; intros acc Hacc.
  - reflexivity.
  - simpl. rewrite IH by (apply nd_add_has_shape; assumption).
    rewrite (nd_add_entry dflt r c) by assumption. reflexivity.
Qed.

Lemma zeros_entry (r c p q : nat) :
  p < r -> q < c -> entry fzero (zeros r c) p q = fzero.
Proof.
  intros Hp Hq. unfold entry, zeros. simpl.
  rewrite (nth_indep _ [] (repeat fzero c)) by (rewrite repeat_length; exact Hp).
  rewrite nth_repeat. apply nth_repeat.
Qed.

End Entrywise.

Section MoreRun.

Context {F : Type} {SF : Scalar F} {CF : Collaborators F}.

(** The sliding windows, entry by entry.  For a series of shape [D] by [T]
    and a window [W < T], entry [(w*D + r, j)] of [tst_data] is feature [r]
    of the series at time [w + j]: column [j] stacks the time points
    [j .. j+W-1]. *)
Theorem window_entries (D T W : nat) (data : list (ndarray F)) (i : nat)
    (d : ndarray F) :
  has_shape D T d -> W < T -> getitem data i = Ok d ->
  exists tst,
    (tst0 <- np_zeros (Z.of_nat D * Z.of_nat W) (Z.of_nat T - Z.of_nat W) ;;
     fill_segments assign data i D (Z.of_nat T - Z.of_nat W) (Z.of_nat W) tst0)
    = Ok tst
    /\ forall w r j, w < W -> r < D -> j < T - W ->
         entry fzero tst (w * D + r) j = entry fzero d r (w + j).
Proof.
  intros Hd HW Hget.
  assert (Hadm : admits D W (T - W) d) by (apply has_shape_admits; [exact Hd | lia]).
  exists (segment_matrix W (T - W) d).
  replace (Z.of_nat T - Z.of_nat W)%Z with (Z.of_nat (T - W)) by lia.
  replace (Z.of_nat D * Z.of_nat W)%Z with (Z.of_nat (D * W)) by lia.
  rewrite np_zeros_nat. cbn [bind].
  split; [apply tst_data_ok; assumption|].
  intros w r j Hw Hr Hj. destruct Hd as (HD & _). rewrite <- HD.
  apply segment_matrix_entry; [exact Hw | lia | exact Hj].
Qed.

(** The group sum, entry by entry.  On subjects of one shape [D] by [T],
    entry [(w*D + r, j)] of [trn_data] after the accumulation is the sum,
    taken from zero in the order of the subjects, of their values for
    feature [r] at time [w + j]. *)
Theorem group_sum_entries (D T W : nat) (data : list (ndarray F)) :
  Forall (has_shape D T) data -> W < T ->
  exists trn,
    (trn0 <- np_zeros (Z.of_nat D * Z.of_nat W) (Z.of_nat T - Z.of_nat W) ;;
     accumulate data D (Z.of_nat T - Z.of_nat W) (Z.of_nat W) trn0) = Ok trn
    /\ forall w r j, w < W -> r < D -> j < T - W ->
         entry fzero trn (w * D + r) j
         = fold_left fadd (map (fun d => entry fzero d r (w + j)) data) fzero.
Proof.
  intros Hshape HW.
  assert (Hadm : Forall (admits D W (T - W)) data)
    by (apply shapes_admit; [exact Hshape | lia]).
  exists (group_sum D W (T - W) data).
  replace (Z.of_nat T - Z.of_nat W)%Z with (Z.of_nat (T - W)) by lia.
  replace (Z.of_nat D * Z.of_nat W)%Z with (Z.of_nat (D * W)) by lia.
  rewrite np_zeros_nat. cbn [bind].
  split; [apply accumulate_ok; exact Hadm|].
  intros w r j Hw Hr Hj. unfold group_sum.
  assert (Hp : w * D + r < D * W) by nia.
  rewrite (fold_nd_add_entry fzero (D * W) (T - W)); auto.
  - rewrite zeros_entry by assumption. rewrite map_map. f_equal.
    apply map_ext_in. intros d Hd. rewrite Forall_forall in Hshape.
    destruct (Hshape d Hd) as (HD & _). rewrite <- HD.
    apply segment_matrix_entry; [exact Hw | lia | exact Hj].
  - apply Forall_map. eapply Forall_impl; [|exact Hadm].
    intros d. apply segment_matrix_shape.
  - apply zeros_shape.
Qed.

(** Every failure of a run is an [IndexError] or a [ValueError], and an
    [IndexError] on the empty input; in particular the division by
    [nseg] never raises [ZeroDivisionError]. *)
Theorem run_exceptions (data : list (ndarray F)) (win_size : Z) (e : exn) :
  time_segment_matching data win_size = Raise e ->
  (e = IndexError \/ e = ValueError) /\ (data = [] -> e = IndexError).
Proof.
  intros H. split.
  - eapply run_raises_index_or_value; eassumption.
  - intros ->. inversion H. reflexivity.
Qed.

End MoreRun.

(** A window of at most one excludes nothing: the double loop returns the
    correlation matrix as it was. *)
Theorem mask_small_window (n : nat) (win_size : Z) (corr : ndarray fval) :
  has_shape n n corr -> (win_size <= 1)%Z ->
  mask_loop corr (Z.of_nat n) win_size = Ok corr.
Proof.
  intros Hc Hwin. rewrite (mask_loop_pure n win_size corr Hc). f_equal.
  apply (ndarray_ext NaN n n); [apply mask_pure_shape; exact Hc | exact Hc |].
  intros p q Hp Hq. destruct Hc as (Hr & Hcc & _).
  rewrite mask_pure_entry by lia. unfold masked.
  destruct (overlaps win_size p q) eqn:E; [|reflexivity].
  apply overlaps_iff in E. lia.
Qed.

(** ** What every successful run returns *)

Lemma count_hits_le (max_idx : list nat) (nseg : Z) :
  count_hits max_idx nseg <= Z.to_nat nseg.
Proof.
  unfold count_hits, range. etransitivity; [apply filter_length_le|].
  rewrite length_combine, length_seq. lia.
Qed.

Lemma py_div_unit (count : nat) (nseg : Z) (q : Q) :
  count <= Z.to_nat nseg -> py_div count nseg = Ok q -> in_unit q.
Proof.
  unfold py_div. intros Hc H. destruct (Z.eqb_spec nseg 0); [discriminate|].
  inversion H. unfold in_unit, Qle. simpl.
  destruct nseg as [|p|p]; simpl in *; lia.
Qed.

Lemma score_unit (corr : ndarray fval) (nseg : Z) (q : Q) :
  score corr nseg = Ok q -> in_unit q.
Proof.
  unfold score. intros H. apply bind_Ok_inv in H as (max_idx & _ & H).
  eapply py_div_unit; [apply count_hits_le | exact H].
Qed.

Section Returns.

Context {F : Type} {SF : Scalar F} {CF : Collaborators F}.

Lemma analyze_subject_returns (data : list (ndarray F)) (D : nat)
    (nseg win_size : Z) (trn : ndarray F) (accuracy accuracy' : list Q)
    (i : nat) :
  analyze_subject data D nseg win_size trn accuracy i = Ok accuracy' ->
  length accuracy' = length accuracy
  /\ (Forall in_unit accuracy -> Forall in_unit accuracy').
Proof.
  unfold analyze_subject. intros H.
  apply bind_Ok_inv in H as (tst0 & _ & H).
  apply bind_Ok_inv in H as (tst & _ & H).
  apply bind_Ok_inv in H as (corr & _ & H).
  apply bind_Ok_inv in H as (q & Hq & H).
  apply score_unit in Hq. unfold setitem1 in H.
  destruct (i <? length accuracy); [|discriminate]. inversion H.
  split; [apply upd_length|].
  intros Hall. apply Forall_upd; [intros _ _; exact Hq | exact Hall].
Qed.

(** Whatever the input, a run that returns does so with one value per
    subject, each between 0 and 1. *)
Theorem run_returns_proportions (data : list (ndarray F)) (win_size : Z)
    (accuracy : list Q) :
  time_segment_matching data win_size = Ok accuracy ->
  length accuracy = length data /\ Forall in_unit accuracy.
Proof.
  unfold time_segment_matching. intros H.
  apply bind_Ok_inv in H as (d0 & _ & H).
  apply bind_Ok_inv in H as (trn0 & _ & H).
  apply bind_Ok_inv in H as (trn & _ & H).
  match type of H with foldM ?body ?l ?s = _ =>
    assert (Hloop : match foldM body l s with
                    | Ok acc => length acc = length data /\ Forall in_unit acc
                    | Raise _ => True
                    end)
  end.
  { apply (foldM_raises (fun _ => True)
             (fun acc => length acc = length data /\ Forall in_unit acc)).
    - intros acc i (Hlen & Hall) _.
      destruct (analyze_subject data _ _ win_size trn acc i) as [acc'|] eqn:E;
        [|exact I].
      apply analyze_subject_returns in E as [Hl Hf].
      split; [congruence | auto].
    - split; [apply repeat_length|].
      apply Forall_repeat. unfold in_unit, Qle. simpl. lia. }
  rewrite H in Hloop. exact Hloop.
Qed.

(** With a single segment ([win_size = T - 1]), a window [W > 0] and
    [D > 0] features, every subject is matched: all accuracies are 1,
    whatever the data and the correlation values. *)
Theorem single_segment (D W : nat) (data : list (ndarray F)) :
  data <> [] -> Forall (has_shape D (S W)) data -> 0 < D -> 0 < W ->
  time_segment_matching data (Z.of_nat W) = Ok (repeat 1%Q (length data)).
Proof.
  intros Hne Hshape HD HW. destruct data as [|d0 rest]; [congruence|].
  assert (Hadm : Forall (admits D W 1) (d0 :: rest)).
  { replace 1 with (S W - W) by lia. apply shapes_admit; [exact Hshape | lia]. }
  assert (HT : ncols d0 = W + 1).
  { inversion Hshape as [|? ? (_ & Hc & _) _]; subst. lia. }
  rewrite (run_ok D W 1 d0 rest Hadm HT) by lia. f_equal.
  rewrite <- (map_const 1%Q (d0 :: rest)). apply map_ext. intros d.
  unfold subject_accuracy.
  pose proof (masked_shape D W 1 (Z.of_nat W) (d0 :: rest) d Hadm) as HM.
  set (M := mask_pure (Z.of_nat W) _) in *. clearbody M.
  assert (Hhits : hits 1 M = 1).
  { unfold hits. cbn [seq filter].
    assert (Hrow : nth 0 (rows M) [] <> []).
    { intros E. pose proof (row_length 1 1 M 0 HM ltac:(lia)) as Hl.
      rewrite E in Hl. discriminate. }
    destruct (argmax_row_spec _ Hrow) as (Hk & _).
    rewrite (row_length 1 1 M 0 HM) in Hk by lia.
    replace (argmax_row (nth 0 (rows M) [])) with 0 by lia. reflexivity. }
  rewrite Hhits. reflexivity.
Qed.

End Returns.

(** ** Subjects with a single row *)

Lemma foldM_ext_inv {S X : Type} (Inv : S -> Prop) (f g : S -> X -> result S)
    (l : list X) :
  (forall s x, Inv s -> In x l ->
     f s x = g s x /\ forall s', g s x = Ok s' -> Inv s') ->
  forall s, Inv s -> foldM f l s = foldM g l s.
Proof.
  induction l as [|x l IH]; intros H s Hs; simpl; [reflexivity|].
  destruct (H s x Hs (or_introl eq_refl)) as [E Hnext]. rewrite E.
  destruct (g s x) as [s'|e]; simpl; [|reflexivity].
  apply IH; [|apply Hnext; reflexivity].
  intros s0 x0 Hs0 Hx0. apply H; [exact Hs0 | right; exact Hx0].
Qed.

Lemma broadcast_rows_same {A : Type} (D : nat) (d : ndarray A) :
  shape0 d = D -> broadcast_rows D d = d.
Proof.
  intros H. destruct d as [c rs]. unfold broadcast_rows. simpl. f_equal.
  apply stretch_same. exact H.
Qed.

(** Broadcasting a slice of a one-row array to [D] rows gives the slice of
    the array with its row repeated [D] times. *)
Lemma broadcast_slice_rows {A : Type} (D : nat) (d : ndarray A)
    (start stop : Z) (c : nat) :
  shape0 d = D \/ shape0 d = 1 ->
  broadcast_to (slice_cols d start stop) D c
  = broadcast_to (slice_cols (broadcast_rows D d) start stop) D c.
Proof.
  intros [H|H]; [rewrite broadcast_rows_same by exact H; reflexivity|].
  destruct (Nat.eq_dec D 1) as [->|HD];
    [rewrite broadcast_rows_same by exact H; reflexivity|].
  destruct d as [cd rs]. unfold shape0 in H. simpl in H.
  destruct rs as [|r [|r' rs]]; simpl in H; try discriminate.
  assert (Hst : forall (B : Type) (x : B), stretch D [x] = repeat x D).
  { intros B x. unfold stretch. simpl length.
    destruct (Nat.eqb_spec 1 D); [congruence | reflexivity]. }
  unfold broadcast_rows, slice_cols. cbn [rows ncols map].
  rewrite Hst, map_repeat.
  unfold broadcast_to, shape0. cbn [rows ncols length map].
  rewrite repeat_length, map_repeat, Hst.
  rewrite (stretch_same D (repeat _ D)) by apply repeat_length.
  unfold fits at 1 3. rewrite !Nat.eqb_refl, orb_true_r. reflexivity.
Qed.

Lemma block_view_length {A : Type} (D W w : nat) (rs : list (list A)) :
  length rs = D * W -> w < W ->
  length (py_slice (Z.of_nat w * Z.of_nat D) ((Z.of_nat w + 1) * Z.of_nat D) rs)
  = D.
Proof.
  intros Hl Hw.
  replace (Z.of_nat w * Z.of_nat D)%Z with (Z.of_nat (w * D)) by lia.
  replace ((Z.of_nat w + 1) * Z.of_nat D)%Z with (Z.of_nat (w * D + D)) by lia.
  rewrite py_slice_nat, length_firstn, length_skipn.
  assert (w * D + D <= D * W) by nia.
  rewrite Hl. replace (w * D + D - w * D) with D by lia.
  apply Nat.min_l. lia.
Qed.

Lemma buffer_rows (D : nat) (win_size : Z) :
  Z.to_nat (Z.of_nat D * win_size) = D * Z.to_nat win_size.
Proof.
  destruct (Z.le_gt_cases 0 win_size) as [H|H].
  - rewrite Z2Nat.inj_mul by lia. rewrite Nat2Z.id. reflexivity.
  - replace (Z.to_nat win_size) with 0 by lia.
    rewrite Nat.mul_0_r.
    assert (Z.of_nat D * win_size <= 0)%Z by nia. lia.
Qed.

Lemma getitem_map {A B : Type} (f : A -> B) (l : list A) (i : nat) :
  getitem (map f l) i = bind (getitem l i) (fun x => Ok (f x)).
Proof.
  unfold getitem. rewrite nth_error_map.
  destruct (nth_error l i); reflexivity.
Qed.

Section OneRow.

Context {F : Type} {SF : Scalar F} {CF : Collaborators F}.

Variable D : nat.
Variable data : list (ndarray F).
Hypothesis rows_ok : Forall (fun d => shape0 d = D \/ shape0 d = 1) data.

Lemma fill_segments_one_row (op : F -> F -> F) (i : nat) (nseg win_size : Z)
    (buf : ndarray F) :
  shape0 buf = D * Z.to_nat win_size ->
  fill_segments op data i D nseg win_size buf
  = fill_segments op (map (broadcast_rows D) data) i D nseg win_size buf.
Proof.
  intros Hbuf. unfold fill_segments.
  apply (foldM_ext_inv (fun s => shape0 s = shape0 buf)); [|reflexivity].
  intros s w Hs Hw. unfold range in Hw. apply in_seq in Hw.
  rewrite getitem_map. unfold getitem.
  destruct (nth_error data i) as [d|] eqn:E; cbn [bind];
    [|split; [reflexivity | discriminate]].
  assert (Hd : shape0 d = D \/ shape0 d = 1).
  { rewrite Forall_forall in rows_ok. apply rows_ok.
    eapply nth_error_In; eassumption. }
  assert (Hupd : forall rhs rhs',
            broadcast_to rhs D (ncols s) = broadcast_to rhs' D (ncols s) ->
            update_rows op s (Z.of_nat w * Z.of_nat D)
              ((Z.of_nat w + 1) * Z.of_nat D) rhs
            = update_rows op s (Z.of_nat w * Z.of_nat D)
                ((Z.of_nat w + 1) * Z.of_nat D) rhs').
  { intros rhs rhs' Hb. unfold update_rows.
    rewrite (block_view_length D (Z.to_nat win_size) w (rows s))
      by (unfold shape0 in *; lia || congruence).
    rewrite Hb. reflexivity. }
  split.
  - apply Hupd. apply broadcast_slice_rows. exact Hd.
  - intros s' Hs'.
    match type of Hs' with update_rows ?o ?a ?lo ?hi ?r = _ =>
      pose proof (update_rows_inv o a lo hi r) as Hinv end.
    rewrite Hs' in Hinv. destruct Hinv as [_ Hr]. congruence.
Qed.

Lemma accumulate_one_row (nseg win_size : Z) (trn : ndarray F) :
  shape0 trn = D * Z.to_nat win_size ->
  accumulate data D nseg win_size trn
  = accumulate (map (broadcast_rows D) data) D nseg win_size trn.
Proof.
  intros Htrn. unfold accumulate. rewrite length_map.
  apply (foldM_ext_inv (fun s => shape0 s = shape0 trn)); [|reflexivity].
  intros s m Hs Hm. unfold range in Hm. rewrite Nat2Z.id in Hm.
  apply in_seq in Hm. split.
  - apply fill_segments_one_row. congruence.
  - intros s' Hs'.
    pose proof (fill_segments_inv fadd (map (broadcast_rows D) data) m D nseg
                  win_size s ltac:(rewrite length_map; lia)) as Hinv.
    rewrite Hs' in Hinv. destruct Hinv as [_ Hr]. congruence.
Qed.

Lemma analyze_subject_one_row (nseg win_size : Z) (trn : ndarray F)
    (accuracy : list Q) (i : nat) :
  analyze_subject data D nseg win_size trn accuracy i
  = analyze_subject (map (broadcast_rows D) data) D nseg win_size trn accuracy i.
Proof.
  unfold analyze_subject.
  destruct (np_zeros (Z.of_nat D * win_size) nseg) as [tst0|e] eqn:E;
    [|reflexivity].
  cbn [bind]. rewrite fill_segments_one_row; [reflexivity|].
  unfold np_zeros in E. destruct (_ || _)%bool; [discriminate|].
  inversion E. unfold shape0. simpl. rewrite repeat_length.
  apply buffer_rows.
Qed.

End OneRow.

Section OneRowRun.

Context {F : Type} {SF : Scalar F} {CF : Collaborators F}.

(** A subject with a single row is not rejected: where [data[0]] has [D]
    rows, every subject with one row is used as if that row were repeated
    for all [D] features.  The run on subjects that have [D] rows or one
    row is the run on the same subjects with the single rows repeated. *)
Theorem one_row_subjects_broadcast (d0 : ndarray F) (rest : list (ndarray F))
    (win_size : Z) :
  Forall (fun d => shape0 d = shape0 d0 \/ shape0 d = 1) rest ->
  time_segment_matching (d0 :: rest) win_size
  = time_segment_matching (map (broadcast_rows (shape0 d0)) (d0 :: rest))
      win_size.
Proof.
  intros Hrest.
  assert (Hall : Forall (fun d => shape0 d = shape0 d0 \/ shape0 d = 1)
                   (d0 :: rest)) by (constructor; [left; reflexivity | exact Hrest]).
  unfold time_segment_matching. rewrite length_map.
  cbn [map]. rewrite (broadcast_rows_same (shape0 d0) d0 eq_refl).
  change (getitem (d0 :: rest) 0) with (Ok d0).
  change (getitem (d0 :: map (broadcast_rows (shape0 d0)) rest) 0) with (Ok d0).
  cbn [bind].
  destruct (np_zeros (Z.of_nat (shape0 d0) * win_size)
              (Z.of_nat (shape1 d0) - win_size)) as [trn0|e] eqn:E;
    [|reflexivity].
  cbn [bind].
  assert (Hmap : d0 :: map (broadcast_rows (shape0 d0)) rest
                 = map (broadcast_rows (shape0 d0)) (d0 :: rest)).
  { cbn [map]. rewrite (broadcast_rows_same (shape0 d0) d0 eq_refl).
    reflexivity. }
  rewrite Hmap.
  rewrite <- (accumulate_one_row (shape0 d0) (d0 :: rest) Hall).
  - destruct (accumulate (d0 :: rest) (shape0 d0) _ win_size trn0) as [trn|e'];
      [|reflexivity].
    cbn [bind]. apply foldM_ext. intros acc i _.
    apply analyze_subject_one_row. exact Hall.
  - unfold np_zeros in E. destruct (_ || _)%bool; [discriminate|].
    inversion E. unfold shape0 at 1. simpl. rewrite repeat_length.
    apply buffer_rows.
Qed.

End OneRowRun.

(** * The notebook cells *)

Lemma skipn_nth_error {A : Type} (l : list A) (s : nat) (d : A) :
  nth_error l s = Some d -> skipn s l = d :: skipn (S s) l.
Proof.
  revert l; induction s as [|s IH]; intros [|x l] H; simpl in H;
    try discriminate.
  - inversion H. reflexivity.
  - simpl. apply IH. exact H.
Qed.

(** ** Slices with an omitted bound *)

Lemma slice_to_truncate {A : Type} (k : nat) (d : ndarray A) :
  slice_cols_opt d None (Some (Z.of_nat k)) = truncate_cols k d.
Proof.
  unfold slice_cols_opt, slice_cols, truncate_cols. f_equal.
  - change 0%Z with (Z.of_nat 0). rewrite slice_len_nat. lia.
  - apply map_ext. intros r. change 0%Z with (Z.of_nat 0).
    rewrite py_slice_nat. simpl skipn. f_equal. lia.
Qed.

Lemma slice_from_last {A : Type} (k : nat) (d : ndarray A) :
  wf d -> 0 < k ->
  slice_cols_opt d (Some (- Z.of_nat k)%Z) None = last_cols k d.
Proof.
  intros Hwf Hk. unfold slice_cols_opt, slice_cols, last_cols.
  assert (Hlen : slice_len (ncols d) (- Z.of_nat k) (Z.of_nat (ncols d))
                 = Nat.min k (ncols d)).
  { unfold slice_len, clip.
    destruct (Z.ltb_spec (- Z.of_nat k) 0); [|lia].
    destruct (Z.ltb_spec (Z.of_nat (ncols d)) 0); lia. }
  f_equal; [exact Hlen|].
  apply map_ext_in. intros r Hr. unfold wf in Hwf.
  rewrite Forall_forall in Hwf. specialize (Hwf r Hr).
  unfold py_slice. rewrite Hwf, Hlen.
  assert (Hst : slice_start (ncols d) (- Z.of_nat k) = ncols d - k).
  { unfold slice_start, clip. destruct (Z.ltb_spec (- Z.of_nat k) 0); lia. }
  rewrite Hst. apply firstn_all2. rewrite length_skipn. lia.
Qed.

Lemma slice_from_zero {A : Type} (d : ndarray A) :
  wf d -> slice_cols_opt d (Some 0%Z) None = d.
Proof.
  intros Hwf. destruct d as [c rs]. unfold slice_cols_opt, slice_cols, wf in *.
  simpl in *. f_equal.
  - change 0%Z with (Z.of_nat 0). rewrite slice_len_nat. lia.
  - rewrite <- (map_id rs) at 2. apply map_ext_in. intros r Hr.
    rewrite Forall_forall in Hwf. specialize (Hwf r Hr).
    change 0%Z with (Z.of_nat 0). rewrite py_slice_nat. simpl skipn.
    apply firstn_all2. lia.
Qed.

Lemma truncate_cols_entry {A : Type} (dflt : A) (k : nat) (d : ndarray A)
    (r j : nat) :
  r < shape0 d -> j < k ->
  entry dflt (truncate_cols k d) r j = entry dflt d r j.
Proof.
  intros Hr Hj. unfold entry, truncate_cols. simpl.
  rewrite (nth_indep _ [] (firstn k [])) by (rewrite length_map; exact Hr).
  rewrite (map_nth (firstn k)), nth_firstn.
  apply Nat.ltb_lt in Hj. rewrite Hj. reflexivity.
Qed.

Lemma last_cols_entry {A : Type} (dflt : A) (k : nat) (d : ndarray A)
    (r j : nat) :
  r < shape0 d ->
  entry dflt (last_cols k d) r j = entry dflt d r (ncols d - k + j).
Proof.
  intros Hr. unfold entry, last_cols. simpl.
  rewrite (nth_indep _ [] (skipn (ncols d - k) []))
    by (rewrite length_map; exact Hr).
  rewrite (map_nth (skipn (ncols d - k))). apply nth_skipn.
Qed.

Section Split.

Context {F : Type} {SF : Scalar F} {CF : Collaborators F}.

Lemma split_from (data : list (ndarray F)) (n_trs : Z) (m : nat) :
  forall s train test, s + m <= length data ->
    foldM (split_step data n_trs) (seq s m) (train, test)
    = Ok (train ++ map (train_half n_trs) (firstn m (skipn s data)),
          test ++ map (test_half n_trs) (firstn m (skipn s data))).
Proof.
  induction m as [|m IH]; intros s train test Hs.
  - simpl. rewrite !app_nil_r. reflexivity.
  - cbn [seq foldM]. unfold split_step at 1.
    destruct (nth_error data s) as [d|] eqn:E;
      [|apply nth_error_None in E; lia].
    unfold getitem. rewrite E. cbn [bind fst snd].
    rewrite IH by lia. rewrite (skipn_nth_error data s d E).
    cbn [firstn map]. rewrite <- !app_assoc. reflexivity.
Qed.

(** The splitting loop reads the first [n_subjects] subjects: it returns
    their training and test halves, in order, when there are that many,
    and fails with [IndexError] when [n_subjects] exceeds the number of
    subjects. *)
Theorem split_subjects (data : list (ndarray F)) (n_subjects n_trs : Z) :
  ((n_subjects <= Z.of_nat (length data))%Z ->
     split_halves data n_subjects n_trs
     = Ok (map (train_half n_trs) (firstn (Z.to_nat n_subjects) data),
           map (test_half n_trs) (firstn (Z.to_nat n_subjects) data)))
  /\ ((Z.of_nat (length data) < n_subjects)%Z ->
     split_halves data n_subjects n_trs = Raise IndexError).
Proof.
  unfold split_halves, range. split; intros H.
  - rewrite (split_from data n_trs (Z.to_nat n_subjects) 0 [] []) by lia.
    reflexivity.
  - replace (Z.to_nat n_subjects)
      with (length data + S (Z.to_nat n_subjects - S (length data))) by lia.
    rewrite seq_app, foldM_app.
    rewrite (split_from data n_trs (length data) 0 [] []) by lia.
    cbn [bind seq foldM]. unfold split_step at 1, getitem.
    assert (E : nth_error data (0 + length data) = None)
      by (apply nth_error_None; lia).
    rewrite E. reflexivity.
Qed.

(** For [n_trs >= 2] both halves of a subject are [n_trs // 2] columns
    wide (or the whole series, if it is shorter): the training half is the
    standardised first columns and the test half the standardised last
    columns. *)
Theorem split_half_widths (n_trs : Z) (d : ndarray F) :
  wf d -> (2 <= n_trs)%Z ->
  let k := Z.to_nat (n_trs / 2) in
  train_half n_trs d = standardize_rows (truncate_cols k d)
  /\ test_half n_trs d = standardize_rows (last_cols k d)
  /\ ncols (train_half n_trs d) = Nat.min k (ncols d)
  /\ ncols (test_half n_trs d) = Nat.min k (ncols d).
Proof.
  intros Hwf Hn k.
  assert (Hk : (1 <= n_trs / 2)%Z) by (apply Z.div_le_lower_bound; lia).
  assert (Hkz : (n_trs / 2)%Z = Z.of_nat k) by (unfold k; lia).
  assert (Htr : train_half n_trs d = standardize_rows (truncate_cols k d)).
  { unfold train_half. rewrite Hkz, slice_to_truncate. reflexivity. }
  assert (Hte : test_half n_trs d = standardize_rows (last_cols k d)).
  { unfold test_half. rewrite Hkz, slice_from_last; [reflexivity | exact Hwf | lia]. }
  rewrite Htr, Hte. repeat split.
Qed.

(** With [n_trs // 2 = 0] (that is [n_trs] 0 or 1) the two halves are not
    alike: the training half has no column, while the test half is the
    whole standardised series, because the slice [-0:] starts at 0. *)
Theorem zero_half_takes_all (n_trs : Z) (d : ndarray F) :
  wf d -> (0 <= n_trs <= 1)%Z ->
  ncols (train_half n_trs d) = 0
  /\ Forall (fun r => r = map nan_to_num (zscore [])) (rows (train_half n_trs d))
  /\ test_half n_trs d = standardize_rows d.
Proof.
  intros Hwf Hn.
  assert (Hk : (n_trs / 2 = 0)%Z) by (apply Z.div_small; lia).
  unfold train_half, test_half. rewrite Hk.
  change (Some 0%Z) with (Some (Z.of_nat 0)) at 1 2.
  rewrite slice_to_truncate. split; [reflexivity|]. split.
  - unfold standardize_rows, truncate_cols. simpl.
    rewrite map_map. apply Forall_map, Forall_forall. intros r _. reflexivity.
  - change (- 0)%Z with 0%Z. rewrite slice_from_zero by exact Hwf. reflexivity.
Qed.

End Split.

(** When [n_trs] is the number of time points [T >= 2], the two slices of
    a subject have [T // 2] columns each and share no time point: column
    [j] of the first is time [j], column [j] of the second is time
    [T - T//2 + j], which is at least [T // 2]; for odd [T] the middle
    time point is in neither. *)
Theorem halves_do_not_overlap {A : Type} (dflt : A) (D T : nat) (d : ndarray A) :
  has_shape D T d -> 2 <= T ->
  let h := T / 2 in
  let first := slice_cols_opt d None (Some (Z.of_nat T / 2)%Z) in
  let second := slice_cols_opt d (Some (- (Z.of_nat T / 2))%Z) None in
  ncols first = h /\ ncols second = h
  /\ T - h = h + T mod 2
  /\ forall r j, r < D -> j < h ->
       entry dflt first r j = entry dflt d r j
       /\ entry dflt second r j = entry dflt d r (T - h + j)
       /\ h <= T - h + j.
Proof.
  intros (Hr & Hc & Hwf) HT h first second.
  assert (Hdiv : (Z.of_nat T / 2)%Z = Z.of_nat h).
  { unfold h. rewrite Nat2Z.inj_div. reflexivity. }
  assert (Hmod : T = 2 * h + T mod 2) by (unfold h; apply Nat.div_mod_eq).
  assert (Hlt : T mod 2 < 2) by (apply Nat.mod_upper_bound; lia).
  assert (Hh : 0 < h) by lia.
  assert (E1 : first = truncate_cols h d).
  { unfold first. rewrite Hdiv. apply slice_to_truncate. }
  assert (E2 : second = last_cols h d).
  { unfold second. rewrite Hdiv. apply slice_from_last; assumption. }
  rewrite E1, E2. simpl ncols. rewrite Hc.
  split; [lia|]. split; [lia|]. split; [lia|].
  intros r j Hrd Hj. split; [|split].
  - apply truncate_cols_entry; lia.
  - rewrite last_cols_entry by lia. rewrite Hc. reflexivity.
  - lia.
Qed.

(** ** The benchmark on the two halves *)

Section Benchmark.

Context {F : Type} {SF : Scalar F} {CF : Collaborators F}.

(** With enough subjects the splitting loop returns the halves of the
    first [n_subjects] of them. *)
Lemma split_halves_ok (data : list (ndarray F)) (n_subjects n_trs : Z) :
  (n_subjects <= Z.of_nat (length data))%Z ->
  split_halves data n_subjects n_trs
  = Ok (map (train_half n_trs) (firstn (Z.to_nat n_subjects) data),
        map (test_half n_trs) (firstn (Z.to_nat n_subjects) data)).
Proof.
  intros H. unfold split_halves, range.
  rewrite (split_from data n_trs (Z.to_nat n_subjects) 0 [] []) by lia.
  reflexivity.
Qed.

(** With too few subjects the loop fails at the first missing one. *)
Lemma split_halves_short (data : list (ndarray F)) (n_subjects n_trs : Z) :
  (Z.of_nat (length data) < n_subjects)%Z ->
  split_halves data n_subjects n_trs = Raise IndexError.
Proof.
  intros H. unfold split_halves, range.
  replace (Z.to_nat n_subjects)
    with (length data + S (Z.to_nat n_subjects - S (length data))) by lia.
  rewrite seq_app, foldM_app.
  rewrite (split_from data n_trs (length data) 0 [] []) by lia.
  cbn [bind seq foldM]. unfold split_step at 1, getitem.
  assert (E : nth_error data (0 + length data) = None)
    by (apply nth_error_None; lia).
  rewrite E. reflexivity.
Qed.

Lemma run_valid (D T W : nat) (data : list (ndarray F)) :
  data <> [] -> Forall (has_shape D T) data -> 0 < D -> 0 < W -> W < T ->
  exists accuracy,
    time_segment_matching data (Z.of_nat W) = Ok accuracy
    /\ length accuracy = length data
    /\ Forall in_unit accuracy.
Proof.
  intros Hne Hshape HD HW0 HW. destruct data as [|d0 rest]; [congruence|].
  assert (Hadm : Forall (admits D W (T - W)) (d0 :: rest))
    by (apply shapes_admit; [exact Hshape | lia]).
  assert (HT : ncols d0 = W + (T - W)).
  { inversion Hshape as [|? ? (_ & Hc & _) _]; subst. lia. }
  eexists. split; [apply (run_ok D W (T - W) d0 rest Hadm HT); lia|].
  split; [apply length_map|].
  apply Forall_map, Forall_forall. intros d _.
  apply subject_accuracy_bounds. lia.
Qed.

Lemma train_half_ncols (n_trs : Z) (d : ndarray F) :
  (0 <= n_trs)%Z -> (Z.of_nat (ncols (train_half n_trs d)) <= n_trs / 2)%Z.
Proof.
  intros Hn. unfold train_half, standardize_rows, slice_cols_opt, slice_cols.
  simpl ncols.
  assert (Hk : (0 <= n_trs / 2)%Z) by (apply Z.div_pos; lia).
  replace (n_trs / 2)%Z with (Z.of_nat (Z.to_nat (n_trs / 2))) at 1 by lia.
  change 0%Z with (Z.of_nat 0). rewrite slice_len_nat. lia.
Qed.

(** The raw benchmark on a training half of at most ten time points
    fails: after a split with at least one subject and [0 <= n_trs] such
    that [n_trs // 2 <= 10], the first call of [time_segment_matching]
    raises [ValueError] or [IndexError], and [ValueError] when
    [n_trs // 2 < 10]. *)
Theorem benchmark_needs_long_series (data : list (ndarray F))
    (n_subjects n_trs : Z) (train_data test_data : list (ndarray F)) :
  split_halves data n_subjects n_trs = Ok (train_data, test_data) ->
  (1 <= n_subjects)%Z -> (0 <= n_trs)%Z -> (n_trs / 2 <= 10)%Z ->
  (raw_benchmark train_data test_data = Raise ValueError
   \/ raw_benchmark train_data test_data = Raise IndexError)
  /\ ((n_trs / 2 < 10)%Z ->
      raw_benchmark train_data test_data = Raise ValueError).
Proof.
  intros Hsplit Hsub Hn Hshort.
  destruct (Z.le_gt_cases n_subjects (Z.of_nat (length data))) as [Hle|Hgt];
    [|rewrite split_halves_short in Hsplit by lia; discriminate].
  rewrite split_halves_ok in Hsplit by exact Hle. inversion Hsplit as [[Htr Hte]].
  destruct data as [|d0 rest]; [simpl in Hle; lia|].
  replace (Z.to_nat n_subjects) with (S (Z.to_nat n_subjects - 1)) by lia.
  cbn [firstn map]. unfold raw_benchmark.
  pose proof (train_half_ncols n_trs d0 Hn) as Hcols.
  assert (Hlt : (Z.of_nat (ncols (train_half n_trs d0)) < 10)%Z ->
                time_segment_matching
                  (train_half n_trs d0
                   :: map (train_half n_trs) (firstn (Z.to_nat n_subjects - 1) rest))
                  10 = Raise ValueError)
    by (intros Hc; apply run_window_too_large; exact Hc).
  split.
  - destruct (Z.eq_dec (Z.of_nat (ncols (train_half n_trs d0))) 10) as [E|E].
    + destruct (run_window_whole (train_half n_trs d0)
                  (map (train_half n_trs) (firstn (Z.to_nat n_subjects - 1) rest))
                  10 E) as [-> | ->]; [left | right]; reflexivity.
    + rewrite Hlt by lia. left. reflexivity.
  - intros Hs. rewrite Hlt by lia. reflexivity.
Qed.

Lemma standardize_rows_shape (D T : nat) (a : ndarray F) :
  (forall r : list F, length (zscore r) = length r) ->
  has_shape D T a -> has_shape D T (standardize_rows a).
Proof.
  intros Hz (Hr & Hc & Hwf). unfold has_shape, standardize_rows, shape0, wf in *.
  simpl. rewrite length_map. repeat split; auto.
  apply Forall_map. eapply Forall_impl; [|exact Hwf]. simpl.
  intros r Hlen. rewrite length_map, Hz. exact Hlen.
Qed.

Lemma truncate_cols_shape (D T k : nat) (a : ndarray F) :
  has_shape D T a -> k <= T -> has_shape D k (truncate_cols k a).
Proof.
  intros (Hr & Hc & Hwf) Hk. unfold has_shape, truncate_cols, shape0, wf in *.
  simpl. rewrite length_map. repeat split; [exact Hr | lia |].
  apply Forall_map. eapply Forall_impl; [|exact Hwf]. simpl.
  intros r Hlen. rewrite length_firstn. lia.
Qed.

Lemma last_cols_shape (D T k : nat) (a : ndarray F) :
  has_shape D T a -> k <= T -> has_shape D k (last_cols k a).
Proof.
  intros (Hr & Hc & Hwf) Hk. unfold has_shape, last_cols, shape0, wf in *.
  simpl. rewrite length_map. repeat split; [exact Hr | lia |].
  apply Forall_map. eapply Forall_impl; [|exact Hwf]. simpl.
  intros r Hlen. rewrite length_skipn. lia.
Qed.

Lemma halves_standardized (n_trs : Z) (h : nat) (d : ndarray F) :
  wf d -> 0 < h -> (n_trs / 2)%Z = Z.of_nat h ->
  train_half n_trs d = standardize_rows (truncate_cols h d)
  /\ test_half n_trs d = standardize_rows (last_cols h d).
Proof.
  intros Hwf Hh Hk. unfold train_half, test_half. rewrite Hk.
  rewrite slice_to_truncate, slice_from_last by assumption.
  split; reflexivity.
Qed.

(** On [N >= 1] subjects of one shape [D] by [T] with more than ten time
    points in each half ([T // 2 > 10]) and [D > 0], split with
    [n_subjects = N] and [n_trs = T], and a [zscore] that keeps the
    length of its argument, the raw benchmark returns two vectors of [N]
    accuracies between 0 and 1. *)
Theorem benchmark_on_halves (D T : nat) (data : list (ndarray F)) :
  (forall r : list F, length (zscore r) = length r) ->
  data <> [] -> Forall (has_shape D T) data -> 0 < D -> 10 < T / 2 ->
  exists train_data test_data accuracy_raw_train accuracy_raw_test,
    split_halves data (Z.of_nat (length data)) (Z.of_nat T)
    = Ok (train_data, test_data)
    /\ raw_benchmark train_data test_data
       = Ok [accuracy_raw_train; accuracy_raw_test]
    /\ length accuracy_raw_train = length data
    /\ length accuracy_raw_test = length data
    /\ Forall in_unit accuracy_raw_train
    /\ Forall in_unit accuracy_raw_test.
Proof.
  intros Hz Hne Hshape HD Hlong.
  pose proof (split_halves_ok data (Z.of_nat (length data)) (Z.of_nat T))
    as Hok.
  rewrite Nat2Z.id, firstn_all in Hok. specialize (Hok ltac:(lia)).
  set (h := T / 2) in *.
  assert (Hh : h <= T) by (unfold h; apply Nat.Div0.div_le_upper_bound; lia).
  assert (Hk : (Z.of_nat T / 2)%Z = Z.of_nat h).
  { unfold h. rewrite Nat2Z.inj_div. reflexivity. }
  assert (Htrain : Forall (has_shape D h) (map (train_half (Z.of_nat T)) data)).
  { apply Forall_map. eapply Forall_impl; [|exact Hshape]. intros d Hd.
    destruct (halves_standardized (Z.of_nat T) h d) as [E _];
      [apply Hd | lia | exact Hk |]. rewrite E.
    apply standardize_rows_shape; [exact Hz|].
    apply (truncate_cols_shape D T); assumption. }
  assert (Htest : Forall (has_shape D h) (map (test_half (Z.of_nat T)) data)).
  { apply Forall_map. eapply Forall_impl; [|exact Hshape]. intros d Hd.
    destruct (halves_standardized (Z.of_nat T) h d) as [_ E];
      [apply Hd | lia | exact Hk |]. rewrite E.
    apply standardize_rows_shape; [exact Hz|].
    apply (last_cols_shape D T); assumption. }
  assert (Hne1 : map (train_half (Z.of_nat T)) data <> [])
    by (destruct data; [congruence | discriminate]).
  assert (Hne2 : map (test_half (Z.of_nat T)) data <> [])
    by (destruct data; [congruence | discriminate]).
  destruct (run_valid D h 10 _ Hne1 Htrain HD ltac:(lia) Hlong)
    as (a1 & Ha1 & Hl1 & Hu1).
  destruct (run_valid D h 10 _ Hne2 Htest HD ltac:(lia) Hlong)
    as (a2 & Ha2 & Hl2 & Hu2).
  rewrite length_map in Hl1, Hl2.
  exists (map (train_half (Z.of_nat T)) data), (map (test_half (Z.of_nat T)) data),
    a1, a2.
  split; [exact Hok|]. split.
  - unfold raw_benchmark. change 10%Z with (Z.of_nat 10).
    rewrite Ha1, Ha2. reflexivity.
  - repeat split; assumption.
Qed.

End Benchmark.

(** * Concrete runs of the further properties *)

Lemma window_entries_witness :
  has_shape 2 4 (mk_ndarray 4 [[1; 2; 0; 1]; [0; 1; 3; 1]]%Z) /\ 2 < 4
  /\ exists tst,
       (tst0 <- np_zeros (Z.of_nat 2 * Z.of_nat 2) (Z.of_nat 4 - Z.of_nat 2) ;;
        fill_segments assign three_subjects 0 2 (Z.of_nat 4 - Z.of_nat 2)
          (Z.of_nat 2) tst0) = Ok tst
       /\ entry 0%Z tst (1 * 2 + 1) 1 = 3%Z.
Proof.
  assert (Hd : has_shape 2 4 (mk_ndarray 4 [[1; 2; 0; 1]; [0; 1; 3; 1]]%Z))
    by (repeat constructor).
  split; [exact Hd|]. split; [lia|].
  destruct (window_entries 2 4 2 three_subjects 0 _ Hd ltac:(lia) eq_refl)
    as (tst & Hrun & Hent).
  exists tst. split; [exact Hrun|].
  exact (Hent 1 1 1 ltac:(lia) ltac:(lia) ltac:(lia)).
Defined.

Lemma group_sum_entries_witness :
  Forall (has_shape 2 4) three_subjects /\ 2 < 4
  /\ exists trn,
       (trn0 <- np_zeros (Z.of_nat 2 * Z.of_nat 2) (Z.of_nat 4 - Z.of_nat 2) ;;
        accumulate three_subjects 2 (Z.of_nat 4 - Z.of_nat 2) (Z.of_nat 2) trn0)
       = Ok trn
       /\ entry 0%Z trn (1 * 2 + 1) 1 = 4%Z.
Proof.
  split; [exact three_subjects_shape|]. split; [lia|].
  destruct (group_sum_entries 2 4 2 three_subjects three_subjects_shape
              ltac:(lia)) as (trn & Hrun & Hent).
  exists trn. split; [exact Hrun|].
  exact (Hent 1 1 1 ltac:(lia) ltac:(lia) ltac:(lia)).
Defined.

Lemma run_exceptions_witness :
  time_segment_matching three_subjects 4 = Raise IndexError
  /\ (IndexError = IndexError \/ IndexError = ValueError)
  /\ (three_subjects = [] -> IndexError = IndexError).
Proof.
  assert (H : time_segment_matching three_subjects 4 = Raise IndexError)
    by (vm_compute; reflexivity).
  split; [exact H|]. exact (run_exceptions three_subjects 4 IndexError H).
Defined.

Lemma mask_small_window_witness :
  has_shape 3 3 example_corr /\ (1 <= 1)%Z
  /\ mask_loop example_corr (Z.of_nat 3) 1 = Ok example_corr.
Proof.
  split; [exact example_corr_shape|]. split; [lia|].
  apply (mask_small_window 3 1 example_corr example_corr_shape). lia.
Defined.

Lemma run_returns_proportions_witness :
  time_segment_matching ragged_subjects 1 = Ok [1 # 2; 1 # 2]%Q
  /\ length [1 # 2; 1 # 2]%Q = length ragged_subjects
  /\ Forall in_unit [1 # 2; 1 # 2]%Q.
Proof.
  assert (H : time_segment_matching ragged_subjects 1 = Ok [1 # 2; 1 # 2]%Q)
    by (vm_compute; reflexivity).
  split; [exact H|]. exact (run_returns_proportions ragged_subjects 1 _ H).
Defined.

Lemma single_segment_witness :
  three_subjects <> [] /\ Forall (has_shape 2 (S 3)) three_subjects
  /\ 0 < 2 /\ 0 < 3
  /\ time_segment_matching three_subjects (Z.of_nat 3)
     = Ok (repeat 1%Q (length three_subjects)).
Proof.
  split; [discriminate|]. split; [exact three_subjects_shape|].
  split; [lia|]. split; [lia|].
  apply (single_segment 2 3 three_subjects);
    [discriminate | exact three_subjects_shape | lia | lia].
Defined.

Lemma one_row_subjects_broadcast_witness :
  Forall (fun d : ndarray Z => shape0 d = 2 \/ shape0 d = 1)
         [row_array 4 [2; 0; 1; 1]%Z]
  /\ time_segment_matching mixed_subjects 1
     = time_segment_matching
         [mk_ndarray 4 [[1; 2; 0; 1]; [0; 1; 3; 1]]%Z;
          mk_ndarray 4 [[2; 0; 1; 1]; [2; 0; 1; 1]]%Z] 1.
Proof.
  assert (H : Forall (fun d : ndarray Z => shape0 d = 2 \/ shape0 d = 1)
                     [row_array 4 [2; 0; 1; 1]%Z])
    by (repeat constructor; right; reflexivity).
  split; [exact H|].
  exact (one_row_subjects_broadcast
           (mk_ndarray 4 [[1; 2; 0; 1]; [0; 1; 3; 1]]%Z)
           [row_array 4 [2; 0; 1; 1]%Z] 1 H).
Defined.

Lemma split_subjects_witness :
  (2 <= Z.of_nat (length three_subjects))%Z
  /\ (Z.of_nat (length three_subjects) < 5)%Z
  /\ split_halves three_subjects 2 4
     = Ok (map (train_half 4) (firstn (Z.to_nat 2) three_subjects),
           map (test_half 4) (firstn (Z.to_nat 2) three_subjects))
  /\ split_halves three_subjects 5 4 = Raise IndexError.
Proof.
  split; [simpl; lia|]. split; [simpl; lia|].
  destruct (split_subjects three_subjects 2 4) as [Hok _].
  destruct (split_subjects three_subjects 5 4) as [_ Hfail].
  split; [apply Hok; simpl; lia | apply Hfail; simpl; lia].
Defined.

Lemma split_half_widths_witness :
  wf (mk_ndarray 4 [[1; 2; 0; 1]; [0; 1; 3; 1]]%Z) /\ (2 <= 4)%Z
  /\ ncols (train_half 4 (mk_ndarray 4 [[1; 2; 0; 1]; [0; 1; 3; 1]]%Z)) = 2
  /\ ncols (test_half 4 (mk_ndarray 4 [[1; 2; 0; 1]; [0; 1; 3; 1]]%Z)) = 2.
Proof.
  assert (Hwf : wf (mk_ndarray 4 [[1; 2; 0; 1]; [0; 1; 3; 1]]%Z))
    by (repeat constructor).
  split; [exact Hwf|]. split; [lia|].
  destruct (split_half_widths 4 _ Hwf ltac:(lia)) as (_ & _ & H1 & H2).
  split; [exact H1 | exact H2].
Defined.

Lemma zero_half_takes_all_witness :
  wf (mk_ndarray 4 [[1; 2; 0; 1]; [0; 1; 3; 1]]%Z) /\ (0 <= 1 <= 1)%Z
  /\ ncols (train_half 1 (mk_ndarray 4 [[1; 2; 0; 1]; [0; 1; 3; 1]]%Z)) = 0
  /\ test_half 1 (mk_ndarray 4 [[1; 2; 0; 1]; [0; 1; 3; 1]]%Z)
     = standardize_rows (mk_ndarray 4 [[1; 2; 0; 1]; [0; 1; 3; 1]]%Z).
Proof.
  assert (Hwf : wf (mk_ndarray 4 [[1; 2; 0; 1]; [0; 1; 3; 1]]%Z))
    by (repeat constructor).
  split; [exact Hwf|]. split; [lia|].
  destruct (zero_half_takes_all 1 _ Hwf ltac:(lia)) as (H1 & _ & H2).
  split; [exact H1 | exact H2].
Defined.

Lemma halves_do_not_overlap_witness :
  has_shape 1 5 (row_array 5 [2; 1; 3; 0; 7]%Z) /\ 2 <= 5
  /\ ncols (slice_cols_opt (row_array 5 [2; 1; 3; 0; 7]%Z) None
              (Some (Z.of_nat 5 / 2)%Z)) = 5 / 2
  /\ 5 - 5 / 2 = 5 / 2 + 5 mod 2.
Proof.
  assert (Hd : has_shape 1 5 (row_array 5 [2; 1; 3; 0; 7]%Z))
    by (repeat constructor).
  split; [exact Hd|]. split; [lia|].
  destruct (halves_do_not_overlap 0%Z 1 5 _ Hd ltac:(lia)) as (H1 & _ & H3 & _).
  split; [exact H1 | exact H3].
Defined.

Lemma benchmark_needs_long_series_witness :
  split_halves three_subjects 3 4
  = Ok (map (train_half 4) three_subjects, map (test_half 4) three_subjects)
  /\ (1 <= 3)%Z /\ (0 <= 4)%Z /\ (4 / 2 <= 10)%Z
  /\ (raw_benchmark (map (train_half 4) three_subjects)
                    (map (test_half 4) three_subjects) = Raise ValueError
      \/ raw_benchmark (map (train_half 4) three_subjects)
                       (map (test_half 4) three_subjects) = Raise IndexError)
  /\ ((4 / 2 < 10)%Z ->
      raw_benchmark (map (train_half 4) three_subjects)
                    (map (test_half 4) three_subjects) = Raise ValueError).
Proof.
  assert (H : split_halves three_subjects 3 4
              = Ok (map (train_half 4) three_subjects,
                    map (test_half 4) three_subjects)) by reflexivity.
  assert (Hdiv : (4 / 2 <= 10)%Z) by (vm_compute; discriminate).
  split; [exact H|]. split; [lia|]. split; [lia|]. split; [exact Hdiv|].
  exact (benchmark_needs_long_series three_subjects 3 4 _ _ H
           ltac:(lia) ltac:(lia) Hdiv).
Defined.

Lemma long_subjects_shape : Forall (has_shape 1 22) long_subjects.
Proof. repeat constructor. Qed.

Lemma benchmark_on_halves_witness :
  (forall r : list Z, length (zscore r) = length r)
  /\ long_subjects <> [] /\ Forall (has_shape 1 22) long_subjects
  /\ 0 < 1 /\ 10 < 22 / 2
  /\ exists train_data test_data accuracy_raw_train accuracy_raw_test,
       split_halves long_subjects (Z.of_nat (length long_subjects)) (Z.of_nat 22)
       = Ok (train_data, test_data)
       /\ raw_benchmark train_data test_data
          = Ok [accuracy_raw_train; accuracy_raw_test]
       /\ length accuracy_raw_train = length long_subjects
       /\ length accuracy_raw_test = length long_subjects
       /\ Forall in_unit accuracy_raw_train
       /\ Forall in_unit accuracy_raw_test.
Proof.
  assert (Hz : forall r : list Z, length (zscore r) = length r)
    by (intros r; reflexivity).
  assert (Hlong : 10 < 22 / 2) by (vm_compute; lia).
  split; [exact Hz|]. split; [discriminate|].
  split; [exact long_subjects_shape|]. split; [lia|]. split; [exact Hlong|].
  apply (benchmark_on_halves 1 22 long_subjects Hz ltac:(discriminate)
           long_subjects_shape ltac:(lia) Hlong).
Defined.
